(** * vue-flow: graph utilities and the node drag composable

    A shallow embedding of [utils/graph.ts] (element algebra, bounding
    geometry, fit-to-view, nested positions) and of [composables/useDrag.ts]
    (the drag gesture handlers), followed by the properties of the
    specification that concern them.

    Conventions of the embedding.
    - A JavaScript object is a record whose optional keys are [option]
      fields: [None] is an absent key, so that ['k' in o] is [isSome].
    - An array that the code mutates in place is threaded explicitly: the
      element operations return an [outcome] holding the returned array, the
      final content of the argument array and the console diagnostics.
    - Numbers.  The drag handlers, the containment query, the bounding
      rects and fit-to-view are embedded on IEEE binary64, the number type
      of the language: the primitive floats, whose operations are the
      correctly rounded ones of the standard, with the [Math] builtins
      written over them ([Math], [Binary64], [Drag]).  [Geometry],
      [Viewport] and [Nested] work on exact rationals, which [Geometry]
      extends with [NaN] and the two infinities under the IEEE conventions
      (the fold of [getRectOfNodes] starts from an infinite box): what is
      stated there concerns the order of the numbers (clamps, unions of
      boxes, the two modes of the containment query) or arithmetic without
      rounding (coordinate round trips, nested offsets). *)

From Stdlib Require Import List String Bool Arith ZArith Lia.
From Stdlib Require Import QArith Qminmax Qround Qabs Lqa.
From Stdlib Require Import Floats.
Import ListNotations.

Set Implicit Arguments.
Set Warnings "-inexact-float".

Close Scope Q_scope.
Close Scope Z_scope.

(* ================================================================== *)
(** * Part I: the embedding *)
(* ================================================================== *)

(** ** Graph model: elements, connectivity, add / update / remove *)

Module Graph.

Local Open Scope string_scope.
Local Open Scope list_scope.

(** The JavaScript values that occur in the fields read by these functions. *)
Inductive value : Type :=
| VUndefined
| VNull
| VBool (b : bool)
| VString (s : string).

(** [a === b] (and SameValueZero, which agrees with it on these values). *)
Definition strictEq (a b : value) : bool :=
  match a, b with
  | VUndefined, VUndefined => true
  | VNull, VNull => true
  | VBool x, VBool y => Bool.eqb x y
  | VString x, VString y => String.eqb x y
  | _, _ => false
  end.

(** ToBoolean. *)
Definition truthy (v : value) : bool :=
  match v with
  | VUndefined | VNull => false
  | VBool b => b
  | VString s => negb (String.eqb s "")
  end.

(** ToString, as applied by a template literal. *)
Definition toString (v : value) : string :=
  match v with
  | VUndefined => "undefined"
  | VNull => "null"
  | VBool true => "true"
  | VBool false => "false"
  | VString s => s
  end.

(** [Node | Edge | Connection]: one object type with optional keys.  [extra]
    holds every other own property (label, type, data, position, ...). *)
Record element : Type := mkElement {
  id : option value;
  source : option value;
  target : option value;
  sourceHandle : option value;
  targetHandle : option value;
  extra : list (string * value)
}.

Definition Elements : Type := list element.

Inductive key : Type := Kid | Ksource | Ktarget | KsourceHandle | KtargetHandle.

Definition own (e : element) (k : key) : option value :=
  match k with
  | Kid => id e
  | Ksource => source e
  | Ktarget => target e
  | KsourceHandle => sourceHandle e
  | KtargetHandle => targetHandle e
  end.

(** ['k' in e] *)
Definition has (k : key) (e : element) : bool :=
  match own e k with Some _ => true | None => false end.

(** [e.k], [undefined] when the key is absent. *)
Definition get (e : element) (k : key) : value :=
  match own e k with Some v => v | None => VUndefined end.

(** [ids.includes(v)] *)
Definition includes (ids : list value) (v : value) : bool :=
  existsb (fun w => strictEq w v) ids.

Definition isEdge (e : element) : bool :=
  has Kid e && has Ksource e && has Ktarget e.

Definition isNode (e : element) : bool :=
  has Kid e && negb (isEdge e).

(** The third parameter of [getConnectedElements]: ['source' | 'target']. *)
Inductive dir : Type := DirSource | DirTarget.

Definition dirKey (d : dir) : key :=
  match d with DirSource => Ksource | DirTarget => Ktarget end.

Definition getConnectedElements (node : element) (elements : Elements) (d : dir)
  : Elements :=
  if negb (isNode node) then []
  else
    let ids :=
      map (fun e => if isEdge e then get e (dirKey d) else VBool false)
          (filter (fun e => isEdge e && strictEq (get e Ksource) (get node Kid))
                  elements) in
    filter (fun e => includes ids (get e Kid)) elements.

Definition getOutgoers (node : element) (elements : Elements) : Elements :=
  getConnectedElements node elements DirTarget.

Definition getIncomers (node : element) (elements : Elements) : Elements :=
  getConnectedElements node elements DirSource.

(** What a call leaves behind: the array it returns, the content of the
    argument array [elements] when it returns, and what went to
    [console.warn]. *)
Record outcome : Type := mkOutcome {
  returned : Elements;
  stored : Elements;
  warnings : list string
}.

(** [arr.splice(start, deleteCount, ...items)] for [0 <= start]; a start
    beyond the end is clamped to the length by [firstn] and [skipn]. *)
Definition splice (arr : Elements) (start deleteCount : nat) (items : Elements)
  : Elements :=
  firstn start arr ++ items ++ skipn (start + deleteCount) arr.

Section RemoveElements.

Variable elementsToRemove : Elements.

Definition nodeIdsToRemove : list value :=
  map (fun n => get n Kid) elementsToRemove.

Definition shouldRemove (e : element) : bool :=
  let '(tgt, src) :=
    if isEdge e then (get e Ktarget, get e Ksource)
    else (VString "", VString "") in
  includes nodeIdsToRemove (get e Kid)
  || includes nodeIdsToRemove tgt
  || includes nodeIdsToRemove src.

(** [elements.forEach((element, i) => { if (shouldRemove(element))
    elements.splice(i, 1) })]: [forEach] reads the length once ([fuel]
    below), visits the indices [k] in order and skips an index that is no
    longer in the array; the callback removes the visited element in
    place, which shifts the rest. *)
Fixpoint forEachSplice (fuel k : nat) (arr : Elements) : Elements :=
  match fuel with
  | O => arr
  | S fuel' =>
      match nth_error arr k with
      | Some e =>
          forEachSplice fuel' (S k)
            (if shouldRemove e then splice arr k 1 [] else arr)
      | None => forEachSplice fuel' (S k) arr
      end
  end.

Definition removeElements (elements : Elements) : outcome :=
  let elements' := forEachSplice (List.length elements) 0 elements in
  {| returned := filter (fun e => negb (shouldRemove e)) elements';
     stored := elements';
     warnings := [] |}.

End RemoveElements.

Definition getEdgeId (c : element) : string :=
  ("vueflow__edge-" ++ toString (get c Ksource) ++ toString (get c KsourceHandle)
   ++ "-" ++ toString (get c Ktarget) ++ toString (get c KtargetHandle))%string.

Definition connectionExists (edge : element) (elements : Elements) : bool :=
  existsb
    (fun el =>
       isEdge el
       && strictEq (get el Ksource) (get edge Ksource)
       && strictEq (get el Ktarget) (get edge Ktarget)
       && (strictEq (get el KsourceHandle) (get edge KsourceHandle)
           || (negb (truthy (get el KsourceHandle))
               && negb (truthy (get edge KsourceHandle))))
       && (strictEq (get el KtargetHandle) (get edge KtargetHandle)
           || (negb (truthy (get el KtargetHandle))
               && negb (truthy (get edge KtargetHandle)))))
    elements.

Definition addEdge_warning : string :=
  "Can't create edge. An edge needs a source and a target.".

(** The candidate built by [addEdge]: a copy of an edge, or the connection
    with a derived [id]. *)
Definition candidate (edgeParams : element) : element :=
  if isEdge edgeParams then edgeParams
  else
    {| id := Some (VString (getEdgeId edgeParams));
       source := source edgeParams;
       target := target edgeParams;
       sourceHandle := sourceHandle edgeParams;
       targetHandle := targetHandle edgeParams;
       extra := extra edgeParams |}.

Definition addEdge (edgeParams : element) (elements : Elements) : outcome :=
  if negb (truthy (get edgeParams Ksource)) || negb (truthy (get edgeParams Ktarget))
  then {| returned := elements; stored := elements;
          warnings := [addEdge_warning] |}
  else
    let edge := candidate edgeParams in
    if connectionExists edge elements
    then {| returned := elements; stored := elements; warnings := [] |}
    else
      (* elements.push(edge); return [...elements, edge] *)
      let pushed := elements ++ [edge] in
      {| returned := pushed ++ [edge]; stored := pushed; warnings := [] |}.

Definition updateEdge_warning : string :=
  "Can't create new edge. An edge needs a source and a target.".

Definition notFound_warning (oldEdge : element) : string :=
  ("The old edge with id=" ++ toString (get oldEdge Kid) ++ " does not exist.")%string.

Definition value_eq_dec (a b : value) : {a = b} + {a <> b}.
Proof. decide equality; [apply bool_dec | apply string_dec]. Defined.

Definition element_eq_dec (a b : element) : {a = b} + {a <> b}.
Proof.
  decide equality;
    repeat (first [ apply list_eq_dec | apply value_eq_dec | apply string_dec
                  | decide equality ]).
Defined.

(** [arr.indexOf(x)], [None] standing for [-1].  Objects are compared by
    identity in JavaScript and by content here; [updateEdge] looks up the
    element that [find] has just returned, the first one that satisfies a
    predicate on the content, so both give the index of that element. *)
Fixpoint indexOf (arr : Elements) (x : element) : option nat :=
  match arr with
  | [] => None
  | y :: rest =>
      if element_eq_dec y x then Some O
      else option_map S (indexOf rest x)
  end.

(** The replacement edge of [updateEdge]: [oldEdge] spread, then the five
    keys overwritten (each becomes an own key, even when its value is
    [undefined]). *)
Definition retarget (oldEdge newConnection : element) : element :=
  {| id := Some (VString (getEdgeId newConnection));
     source := Some (get newConnection Ksource);
     target := Some (get newConnection Ktarget);
     sourceHandle := Some (get newConnection KsourceHandle);
     targetHandle := Some (get newConnection KtargetHandle);
     extra := extra oldEdge |}.

Definition updateEdge (oldEdge newConnection : element) (elements : Elements)
  : outcome :=
  if negb (truthy (get newConnection Ksource))
     || negb (truthy (get newConnection Ktarget))
  then {| returned := elements; stored := elements;
          warnings := [updateEdge_warning] |}
  else
    match find (fun e => isEdge e && strictEq (get e Kid) (get oldEdge Kid))
               elements with
    | None => {| returned := elements; stored := elements;
                 warnings := [notFound_warning oldEdge] |}
    | Some foundEdge =>
        let edge := retarget oldEdge newConnection in
        let start :=
          match indexOf elements foundEdge with
          | Some i => i
          | None => List.length elements - 1   (* splice(-1, ...) *)
          end in
        let elements' := splice elements start 1 [edge] in
        {| returned :=
             filter (fun e => negb (strictEq (get e Kid) (get oldEdge Kid)))
                    elements' ++ [edge];
           stored := elements';
           warnings := [] |}
    end.

(** The survivors of a removal in the words of the specification: the
    elements "whose id is not in toRemove's id set and that are not edges
    with source or target in that id set". *)
Definition survivesRemoval (toRemove : Elements) (e : element) : bool :=
  let ids := nodeIdsToRemove toRemove in
  negb (includes ids (get e Kid))
  && negb (isEdge e
           && (includes ids (get e Ksource) || includes ids (get e Ktarget))).

(** Constructors for well-typed inputs. *)
Definition node (i : string) : element :=
  {| id := Some (VString i); source := None; target := None;
     sourceHandle := None; targetHandle := None; extra := [] |}.

Definition edge (i s t : string) : element :=
  {| id := Some (VString i); source := Some (VString s);
     target := Some (VString t);
     sourceHandle := None; targetHandle := None; extra := [] |}.

Definition connection (s t : string) : element :=
  {| id := None; source := Some (VString s); target := Some (VString t);
     sourceHandle := None; targetHandle := None; extra := [] |}.

End Graph.

(** ** Geometry kernel: boxes, rects, containment queries, fit-to-view *)

Module Geometry.

Local Open Scope Q_scope.

(** A JavaScript number: an exact rational, [NaN], or an infinity. *)
Inductive number : Type :=
| NaN
| NegInf
| Fin (q : Q)
| PosInf.

Definition Infinity : number := PosInf.

Definition neg (a : number) : number :=
  match a with
  | NaN => NaN
  | NegInf => PosInf
  | Fin q => Fin (- q)
  | PosInf => NegInf
  end.

Definition add (a b : number) : number :=
  match a, b with
  | NaN, _ | _, NaN => NaN
  | PosInf, NegInf | NegInf, PosInf => NaN
  | PosInf, _ | _, PosInf => PosInf
  | NegInf, _ | _, NegInf => NegInf
  | Fin x, Fin y => Fin (x + y)
  end.

Definition sub (a b : number) : number := add a (neg b).

(** The sign of a number that is not [NaN]. *)
Definition sign (a : number) : comparison :=
  match a with
  | NaN => Eq
  | NegInf => Lt
  | Fin q => q ?= 0
  | PosInf => Gt
  end.

Definition signed_infinity (s : comparison) : number :=
  match s with Lt => NegInf | Eq => NaN | Gt => PosInf end.

Definition mul_sign (s t : comparison) : comparison :=
  match s, t with
  | Eq, _ | _, Eq => Eq
  | Lt, Lt | Gt, Gt => Gt
  | Lt, Gt | Gt, Lt => Lt
  end.

Definition mul (a b : number) : number :=
  match a, b with
  | NaN, _ | _, NaN => NaN
  | Fin x, Fin y => Fin (x * y)
  | _, _ => signed_infinity (mul_sign (sign a) (sign b))
  end.

(** Division; a zero divisor counts as [+0]. *)
Definition div (a b : number) : number :=
  match a, b with
  | NaN, _ | _, NaN => NaN
  | Fin x, Fin y =>
      if Qeq_bool y 0 then signed_infinity (x ?= 0) else Fin (x / y)
  | Fin _, _ => Fin 0
  | _, Fin y => signed_infinity (mul_sign (sign a) (if Qeq_bool y 0 then Gt else y ?= 0))
  | _, _ => NaN
  end.

(** The order of the numbers that are not [NaN]. *)
Definition cmp (a b : number) : comparison :=
  match a, b with
  | Fin x, Fin y => x ?= y
  | NegInf, NegInf | PosInf, PosInf => Eq
  | NegInf, _ | _, PosInf => Lt
  | _, _ => Gt
  end.

Definition isNaN (a : number) : bool :=
  match a with NaN => true | _ => false end.

(** [a < b], [a <= b], [a > b], [a >= b], [a === b]: false on [NaN]. *)
Definition ltb (a b : number) : bool :=
  negb (isNaN a) && negb (isNaN b)
  && match cmp a b with Lt => true | _ => false end.

Definition leb (a b : number) : bool :=
  negb (isNaN a) && negb (isNaN b)
  && match cmp a b with Gt => false | _ => true end.

Definition gtb (a b : number) : bool := ltb b a.
Definition geb (a b : number) : bool := leb b a.

Definition eqb (a b : number) : bool :=
  negb (isNaN a) && negb (isNaN b)
  && match cmp a b with Eq => true | _ => false end.

(** [Math.min(a, b)] and [Math.max(a, b)]. *)
Definition min (a b : number) : number :=
  if isNaN a || isNaN b then NaN
  else match cmp a b with Gt => b | _ => a end.

Definition max (a b : number) : number :=
  if isNaN a || isNaN b then NaN
  else match cmp a b with Lt => b | _ => a end.

(** [Math.ceil] *)
Definition ceil (a : number) : number :=
  match a with
  | Fin q => Fin (inject_Z (Qceiling q))
  | _ => a
  end.

Declare Scope number_scope.
Delimit Scope number_scope with num.
Bind Scope number_scope with number.
Infix "+" := add : number_scope.
Infix "-" := sub : number_scope.
Infix "*" := mul : number_scope.
Infix "/" := div : number_scope.

Coercion Fin : Q >-> number.

Record XYPosition : Type := mkXY { x : number; y : number }.
Record Dimensions : Type := mkDim { width : option number; height : option number }.
Record Rect : Type := mkRect {
  rx : number; ry : number; rwidth : number; rheight : number }.
Record Box : Type := mkBox { bx : number; by_ : number; x2 : number; y2 : number }.

(** [[tx, ty, tScale]] *)
Definition Transform : Type := (number * number * number)%type.

(** The fields of a [GraphNode] that the geometry reads.  [None] is an
    absent key, except in [Dimensions] where it is [null] (a node that has
    not been measured); [selectable] and [dragging] are optional flags. *)
Record GraphNode : Type := mkNode {
  position : option XYPosition;
  dimensions : option Dimensions;
  dragging : option bool;
  selectable : option bool
}.

(** ToNumber of a possibly null number, as [+] applies it. *)
Definition toNumber (o : option number) : number :=
  match o with Some n => n | None => Fin 0 end.

Definition clamp (val lo hi : number) : number := min (max val lo) hi.

Definition getBoundsOfBoxes (box1 box2 : Box) : Box :=
  {| bx := min (bx box1) (bx box2);
     by_ := min (by_ box1) (by_ box2);
     x2 := max (x2 box1) (x2 box2);
     y2 := max (y2 box1) (y2 box2) |}.

(** The two conversions without rounding; [Binary64.rectToBox] and
    [Binary64.boxToRect] are the rounded ones. *)
Definition rectToBox (r : Rect) : Box :=
  {| bx := rx r; by_ := ry r;
     x2 := (rx r + rwidth r)%num; y2 := (ry r + rheight r)%num |}.

Definition boxToRect (b : Box) : Rect :=
  {| rx := bx b; ry := by_ b;
     rwidth := (x2 b - bx b)%num; rheight := (y2 b - by_ b)%num |}.

Definition defaultPosition : XYPosition := {| x := Fin 0; y := Fin 0 |}.
Definition defaultDimensions : Dimensions :=
  {| width := Some (Fin 0); height := Some (Fin 0) |}.

(** [rectToBox({ ...position, ...dimensions })] after the destructuring
    defaults. *)
Definition nodeBox (node : GraphNode) : Box :=
  let position := match position node with Some p => p | None => defaultPosition end in
  let dimensions :=
    match dimensions node with Some d => d | None => defaultDimensions end in
  rectToBox {| rx := x position; ry := y position;
               rwidth := toNumber (width dimensions);
               rheight := toNumber (height dimensions) |}.

Definition getRectOfNodes (nodes : list GraphNode) : Rect :=
  let box :=
    fold_left (fun currBox node => getBoundsOfBoxes currBox (nodeBox node))
              nodes
              {| bx := Infinity; by_ := Infinity;
                 x2 := neg Infinity; y2 := neg Infinity |} in
  boxToRect box.

Definition defaultTransform : Transform := (Fin 0, Fin 0, Fin 1).

Definition xOverlap (rBox nBox : Box) : number :=
  max (Fin 0) (min (x2 rBox) (x2 nBox) - max (bx rBox) (bx nBox))%num.

Definition yOverlap (rBox nBox : Box) : number :=
  max (Fin 0) (min (y2 rBox) (y2 nBox) - max (by_ rBox) (by_ nBox))%num.

Definition overlappingArea (rBox nBox : Box) : number :=
  ceil (xOverlap rBox nBox * yOverlap rBox nBox)%num.

(** The query rect in world coordinates. *)
Definition queryBox (rect : Rect) (t : Transform) : Box :=
  let '(tx, ty, tScale) := t in
  rectToBox {| rx := ((rx rect - tx) / tScale)%num;
               ry := ((ry rect - ty) / tScale)%num;
               rwidth := (rwidth rect / tScale)%num;
               rheight := (rheight rect / tScale)%num |}.

(** [v === null] *)
Definition isNull (v : option number) : bool :=
  match v with None => true | Some _ => false end.

(** The callback of the filter in [getNodesInside].  The array holds node
    objects, so the test [!node] is false and only [selectable === false]
    is left of the first guard. *)
Definition insideBox (rBox : Box) (partially : bool) (node : GraphNode) : bool :=
  match selectable node with
  | Some false => false
  | _ =>
      let dimensions :=
        match dimensions node with Some d => d | None => defaultDimensions end in
      let dragging := match dragging node with Some b => b | None => false end in
      let overlappingArea := overlappingArea rBox (nodeBox node) in
      if isNull (width dimensions) || isNull (height dimensions) || dragging
      then true
      else if partially then gtb overlappingArea (Fin 0)
      else
        let area := (toNumber (width dimensions) * toNumber (height dimensions))%num in
        geb overlappingArea area
  end.

Definition getNodesInside (nodes : list GraphNode) (rect : Rect)
  (transform : option Transform) (partially : option bool) : list GraphNode :=
  let t := match transform with Some t => t | None => defaultTransform end in
  let partially := match partially with Some b => b | None => false end in
  filter (insideBox (queryBox rect t) partially) nodes.

End Geometry.

(** ** Nested position resolver *)

Module Nested.

Local Open Scope Q_scope.

Record XYPosition : Type := mkXY { x : Q; y : Q }.
Record XYZPosition : Type := mkXYZ { px : Q; py : Q; pz : Q }.

(** The fields of a [GraphNode] that the resolver reads.  [parentNode] is a
    reference to the parent object; a value of this type is a finite chain
    of parents, so a cyclic chain, on which the code does not return, has no
    counterpart here. *)
#[local] Unset Elimination Schemes.
Inductive GraphNode : Type := mkNode {
  position : XYPosition;
  computedPosition : XYZPosition;
  parentNode : option GraphNode
}.
#[local] Set Elimination Schemes.

(** [a > b] *)
Definition gtb (a b : Q) : bool := negb (Qle_bool a b).

Fixpoint calculateXYZPosition (node : GraphNode) (result : XYZPosition)
  : XYZPosition :=
  match parentNode node with
  | None => result
  | Some parent =>
      calculateXYZPosition parent
        {| px := px result + x (position parent);
           py := py result + y (position parent);
           pz := if gtb (pz (computedPosition parent)) (pz (computedPosition node))
                 then pz (computedPosition parent) + 1
                 else pz (computedPosition node) |}
  end.

(** Modelled from the spec: the caller of [calculateXYZPosition] is not among
    the sources.  The resolution of a node starts from "its own local
    position / declared index", which is the result for a node without
    parent. *)
Definition resolveAbsolutePosition (node : GraphNode) : XYZPosition :=
  calculateXYZPosition node
    {| px := x (position node); py := y (position node);
       pz := pz (computedPosition node) |}.

(** A node without parent, at a local position and with a declared index. *)
Definition root (lx ly lz : Q) : GraphNode :=
  {| position := {| x := lx; y := ly |};
     computedPosition := {| px := lx; py := ly; pz := lz |};
     parentNode := None |}.

(** A child of [parent]. *)
Definition child (lx ly lz : Q) (parent : GraphNode) : GraphNode :=
  {| position := {| x := lx; y := ly |};
     computedPosition := {| px := lx; py := ly; pz := lz |};
     parentNode := Some parent |}.

End Nested.

(** ** The [Math] builtins on binary64 *)

Module Math.

Local Open Scope float_scope.

(** [2 ** 52]: from there on every binary64 number is an integer. *)
Definition two52 : float := 4503599627370496.

(** The integer nearest to [x], for [x] below [two52] in magnitude. *)
Definition nearest (x : float) : float :=
  if 0 <=? x then (x + two52) - two52 else (x - two52) + two52.

(** A zero result takes the sign of the argument. *)
Definition withSign (x r : float) : float :=
  if r =? 0 then (if get_sign x then neg_zero else zero) else r.

Definition integral (x : float) : bool := is_nan x || (two52 <=? abs x).

(** [Math.floor] *)
Definition floor (x : float) : float :=
  if integral x then x
  else let r := nearest x in withSign x (if x <? r then r - 1 else r).

(** [Math.ceil] *)
Definition ceil (x : float) : float :=
  if integral x then x
  else let r := nearest x in withSign x (if r <? x then r + 1 else r).

(** [Math.round]: the nearest integer, a tie going up. *)
Definition round (x : float) : float :=
  if integral x then x
  else let f := floor x in withSign x (if 0.5 <=? x - f then f + 1 else f).

(** [Math.max] and [Math.min] of two numbers: [NaN] when either is, and
    [+0] above [-0] (two numbers that compare equal differ at most in the
    sign of zero). *)
Definition max (a b : float) : float :=
  if is_nan a || is_nan b then nan
  else if a <? b then b
  else if b <? a then a
  else if get_sign a then b else a.

Definition min (a b : float) : float :=
  if is_nan a || is_nan b then nan
  else if a <? b then a
  else if b <? a then b
  else if get_sign a then a else b.

(** [Math.sqrt] *)
Definition sqrt (x : float) : float := PrimFloat.sqrt x.

End Math.

(** ** The containment query and fit-to-view on binary64 *)

Module Binary64.

Local Open Scope float_scope.

Record XYPosition : Type := mkXY { x : float; y : float }.

(** [None] is [null]. *)
Record Dimensions : Type := mkDim { width : option float; height : option float }.

Record Rect : Type := mkRect {
  rx : float; ry : float; rwidth : float; rheight : float }.

Record Box : Type := mkBox { bx : float; by_ : float; x2 : float; y2 : float }.

(** [[tx, ty, tScale]] *)
Definition Transform : Type := (float * float * float)%type.

(** The fields of a [GraphNode] that the query reads; [None] is an absent
    key. *)
Record GraphNode : Type := mkNode {
  position : option XYPosition;
  dimensions : option Dimensions;
  dragging : option bool;
  selectable : option bool
}.

(** ToNumber of a possibly null number, as [+] and [*] apply it, and
    [v ?? 0]. *)
Definition toNumber (o : option float) : float :=
  match o with Some n => n | None => 0 end.

(** [v === null] *)
Definition isNull (v : option float) : bool :=
  match v with None => true | Some _ => false end.

Definition clamp (val lo hi : float) : float := Math.min (Math.max val lo) hi.

Definition rectToBox (r : Rect) : Box :=
  {| bx := rx r; by_ := ry r; x2 := rx r + rwidth r; y2 := ry r + rheight r |}.

Definition boxToRect (b : Box) : Rect :=
  {| rx := bx b; ry := by_ b; rwidth := x2 b - bx b; rheight := y2 b - by_ b |}.

Definition getBoundsOfBoxes (box1 box2 : Box) : Box :=
  {| bx := Math.min (bx box1) (bx box2);
     by_ := Math.min (by_ box1) (by_ box2);
     x2 := Math.max (x2 box1) (x2 box2);
     y2 := Math.max (y2 box1) (y2 box2) |}.

Definition getBoundsofRects (rect1 rect2 : Rect) : Rect :=
  boxToRect (getBoundsOfBoxes (rectToBox rect1) (rectToBox rect2)).

(** [rectToBox({ ...position, ...dimensions })] after the destructuring
    defaults. *)
Definition nodeBox (node : GraphNode) : Box :=
  let position :=
    match position node with Some p => p | None => {| x := 0; y := 0 |} end in
  let dimensions :=
    match dimensions node with
    | Some d => d
    | None => {| width := Some 0; height := Some 0 |}
    end in
  rectToBox {| rx := x position; ry := y position;
               rwidth := toNumber (width dimensions);
               rheight := toNumber (height dimensions) |}.

(** The box that the fold of [getRectOfNodes] starts from. *)
Definition seedBox : Box :=
  {| bx := infinity; by_ := infinity; x2 := neg_infinity; y2 := neg_infinity |}.

(** The fold of [getRectOfNodes], from any box. *)
Definition unionOfNodes (nodes : list GraphNode) (acc : Box) : Box :=
  fold_left (fun currBox node => getBoundsOfBoxes currBox (nodeBox node))
            nodes acc.

Definition getRectOfNodes (nodes : list GraphNode) : Rect :=
  let box :=
    fold_left (fun currBox node => getBoundsOfBoxes currBox (nodeBox node))
              nodes
              {| bx := infinity; by_ := infinity;
                 x2 := neg_infinity; y2 := neg_infinity |} in
  boxToRect box.

(** [inner] lies within [outer]. *)
Definition contains (outer inner : Box) : bool :=
  (bx outer <=? bx inner) && (by_ outer <=? by_ inner)
  && (x2 inner <=? x2 outer) && (y2 inner <=? y2 outer).

(** No coordinate is [NaN]. *)
Definition definedBox (b : Box) : bool :=
  negb (is_nan (bx b)) && negb (is_nan (by_ b))
  && negb (is_nan (x2 b)) && negb (is_nan (y2 b)).

Definition graphPosToZoomedPos (p : XYPosition) (t : Transform) : XYPosition :=
  let '(tx, ty, tScale) := t in
  {| x := x p * tScale + tx; y := y p * tScale + ty |}.

(** The array holds node objects, so the test [!node] is false and only
    [selectable === false] is left of the first guard of the callback. *)
Definition getNodesInside (nodes : list GraphNode) (rect : Rect)
  (transform : option Transform) (partially : option bool) : list GraphNode :=
  let '(tx, ty, tScale) :=
    match transform with Some t => t | None => (0, 0, 1) end in
  let partially := match partially with Some b => b | None => false end in
  let rBox :=
    rectToBox {| rx := (rx rect - tx) / tScale;
                 ry := (ry rect - ty) / tScale;
                 rwidth := rwidth rect / tScale;
                 rheight := rheight rect / tScale |} in
  filter
    (fun node =>
       match selectable node with
       | Some false => false
       | _ =>
           let position :=
             match position node with
             | Some p => p
             | None => {| x := 0; y := 0 |}
             end in
           let dimensions :=
             match dimensions node with
             | Some d => d
             | None => {| width := Some 0; height := Some 0 |}
             end in
           let dragging := match dragging node with Some b => b | None => false end in
           let nBox :=
             rectToBox {| rx := x position; ry := y position;
                          rwidth := toNumber (width dimensions);
                          rheight := toNumber (height dimensions) |} in
           let xOverlap :=
             Math.max 0 (Math.min (x2 rBox) (x2 nBox) - Math.max (bx rBox) (bx nBox)) in
           let yOverlap :=
             Math.max 0 (Math.min (y2 rBox) (y2 nBox) - Math.max (by_ rBox) (by_ nBox)) in
           let overlappingArea := Math.ceil (xOverlap * yOverlap) in
           if isNull (width dimensions) || isNull (height dimensions) || dragging
           then true
           else if partially then 0 <? overlappingArea
           else
             let area := toNumber (width dimensions) * toNumber (height dimensions) in
             area <=? overlappingArea
       end)
    nodes.

Record Offset : Type := mkOffset { ox : option float; oy : option float }.

Definition getTransformForBounds (bounds : Rect) (width height minZoom maxZoom : float)
  (padding : option float) (offset : option Offset) : Transform :=
  let padding := match padding with Some p => p | None => 0.1 end in
  let offset :=
    match offset with
    | Some o => o
    | None => {| ox := Some 0; oy := Some 0 |}
    end in
  let xZoom := width / (rwidth bounds * (1 + padding)) in
  let yZoom := height / (rheight bounds * (1 + padding)) in
  let zoom := Math.min xZoom yZoom in
  let clampedZoom := clamp zoom minZoom maxZoom in
  let boundsCenterX := rx bounds + rwidth bounds / 2 in
  let boundsCenterY := ry bounds + rheight bounds / 2 in
  let x := width / 2 - boundsCenterX * clampedZoom + toNumber (ox offset) in
  let y := height / 2 - boundsCenterY * clampedZoom + toNumber (oy offset) in
  (x, y, clampedZoom).

(** The rational number that a finite binary64 number stands for ([0] for
    the others). *)
Definition valueOf (f : float) : Q :=
  match Prim2SF f with
  | S754_finite s m e =>
      ((if s then -1 else 1) * inject_Z (Zpos m) * Qpower 2 e)%Q
  | _ => 0%Q
  end.

End Binary64.

(** ** Drag session: the handlers of [useDrag] *)

Module Drag.

Local Open Scope float_scope.

Record XYPosition : Type := mkXY { x : float; y : float }.

(** What [getPointerPosition(event)] returns. *)
Record PointerPosition : Type := mkPointer {
  ptX : float; ptY : float; xSnapped : float; ySnapped : float }.

Record DOMRect : Type := mkDOMRect {
  left : float; top : float; rectWidth : float; rectHeight : float }.

(** A d3 drag event, through what the handlers read of it: its pointer
    position, the client coordinates of its source event, and whether the
    source event is a [touchmove] with more than one touch. *)
Record UseDragEvent : Type := mkEvent {
  pointer : PointerPosition;
  clientX : float;
  clientY : float;
  multiTouchMove : bool
}.

Record NodeDragItem : Type := mkItem {
  itemId : string;
  position : XYPosition;
  distance : XYPosition
}.

(** The reactive store and the parameters of the composable, as the
    handlers see them when they run; a field that is a function stands for
    the helper of that name applied to the store. *)
Record env : Type := mkEnv {
  nodeDragThreshold : float;
  snapToGrid : bool;
  snapGrid : float * float;
  autoPanOnNodeDrag : bool;
  zoom : float;
  selectNodesOnDrag : bool;
  multiSelectionActive : bool;
  selectable : bool;
  hasOnClick : bool;                      (* [onClick] is optional *)
  nodeSelected : option bool;             (* [getNode(id)?.selected] *)
  containerRect : option DOMRect;         (* [vueFlowRef.value?.getBoundingClientRect()] *)
  getDragItems : PointerPosition -> list NodeDragItem;
  calcNextPosition : NodeDragItem -> XYPosition -> XYPosition;
  calcAutoPan : XYPosition -> DOMRect -> float * float;
  panBy : float * float -> bool
}.

(** Calls that leave the composable: the four callbacks of [UseDragParams]
    and the store actions. *)
Inductive effect : Type :=
| OnStart
| OnDrag
| OnStop
| OnClick
| RemoveSelectedNodes
| HandleNodeClick
| UpdateNodePositions (items : list NodeDragItem) (changed dragging : bool)
| PanBy (delta : float * float).

(** The variables closed over by the handlers. *)
Record state : Type := mkState {
  dragging : bool;
  dragItems : list NodeDragItem;
  containerBounds : option DOMRect;
  lastPos : option float * option float;
  mousePosition : XYPosition;
  dragEvent : option UseDragEvent;
  dragStarted : bool;
  autoPanScheduled : bool;     (* a frame requested under [autoPanId] is pending *)
  autoPanStarted : bool
}.

Definition initial : state :=
  {| dragging := false; dragItems := []; containerBounds := None;
     lastPos := (None, None); mousePosition := {| x := 0; y := 0 |};
     dragEvent := None; dragStarted := false;
     autoPanScheduled := false; autoPanStarted := false |}.

Definition set_dragging (b : bool) (s : state) : state :=
  mkState b (dragItems s) (containerBounds s) (lastPos s) (mousePosition s)
          (dragEvent s) (dragStarted s) (autoPanScheduled s) (autoPanStarted s).
Definition set_dragItems (l : list NodeDragItem) (s : state) : state :=
  mkState (dragging s) l (containerBounds s) (lastPos s) (mousePosition s)
          (dragEvent s) (dragStarted s) (autoPanScheduled s) (autoPanStarted s).
Definition set_containerBounds (b : option DOMRect) (s : state) : state :=
  mkState (dragging s) (dragItems s) b (lastPos s) (mousePosition s)
          (dragEvent s) (dragStarted s) (autoPanScheduled s) (autoPanStarted s).
Definition set_lastPos (p : option float * option float) (s : state) : state :=
  mkState (dragging s) (dragItems s) (containerBounds s) p (mousePosition s)
          (dragEvent s) (dragStarted s) (autoPanScheduled s) (autoPanStarted s).
Definition set_mousePosition (p : XYPosition) (s : state) : state :=
  mkState (dragging s) (dragItems s) (containerBounds s) (lastPos s) p
          (dragEvent s) (dragStarted s) (autoPanScheduled s) (autoPanStarted s).
Definition set_dragEvent (e : option UseDragEvent) (s : state) : state :=
  mkState (dragging s) (dragItems s) (containerBounds s) (lastPos s)
          (mousePosition s) e (dragStarted s) (autoPanScheduled s)
          (autoPanStarted s).
Definition set_dragStarted (b : bool) (s : state) : state :=
  mkState (dragging s) (dragItems s) (containerBounds s) (lastPos s)
          (mousePosition s) (dragEvent s) b (autoPanScheduled s)
          (autoPanStarted s).
Definition set_autoPanScheduled (b : bool) (s : state) : state :=
  mkState (dragging s) (dragItems s) (containerBounds s) (lastPos s)
          (mousePosition s) (dragEvent s) (dragStarted s) b (autoPanStarted s).
Definition set_autoPanStarted (b : bool) (s : state) : state :=
  mkState (dragging s) (dragItems s) (containerBounds s) (lastPos s)
          (mousePosition s) (dragEvent s) (dragStarted s) (autoPanScheduled s) b.

(** A handler: a state transformer that records the calls it makes. *)
Definition action : Type := state -> state * list effect.

Definition skip : action := fun s => (s, []).
Definition emit (e : effect) : action := fun s => (s, [e]).
Definition modify (f : state -> state) : action := fun s => (f s, []).
Definition andThen (a b : action) : action :=
  fun s => let (s1, t1) := a s in
           let (s2, t2) := b s1 in (s2, t1 ++ t2).
Definition when (c : state -> bool) (a : action) : action :=
  fun s => if c s then a s else (s, []).

Declare Scope action_scope.
Delimit Scope action_scope with action.
Bind Scope action_scope with action.
Notation "a ;; b" := (andThen a b) (at level 61, right associativity) : action_scope.
Local Open Scope action_scope.

(** [v ?? 0] *)
Definition orZero (v : option float) : float := match v with Some q => q | None => 0 end.

(** [a !== b] for a possibly undefined [a] and a number [b]. *)
Definition differs (a : option float) (b : float) : bool :=
  match a with Some q => negb (q =? b) | None => true end.

(** The [distance] of [eventDrag] and [eventEnd]:
    [Math.sqrt(x * x + y * y)] for the offset of the snapped pointer
    position from [lastPos]. *)
Definition travelled (p : PointerPosition) (last : option float * option float)
  : float :=
  let x := xSnapped p - orZero (fst last) in
  let y := ySnapped p - orZero (snd last) in
  Math.sqrt (x * x + y * y).

Definition getEventPosition (ev : UseDragEvent) (bounds : option DOMRect)
  : XYPosition :=
  {| x := clientX ev - orZero (option_map left bounds);
     y := clientY ev - orZero (option_map top bounds) |}.

Section Handlers.

Variable E : env.

(** The position of a drag item for the pointer at [(px, py)]. *)
Definition nextPosition (px py : float) (n : NodeDragItem) : XYPosition :=
  let next := {| x := px - x (distance n); y := py - y (distance n) |} in
  let next :=
    if snapToGrid E
    then {| x := fst (snapGrid E) * Math.round (x next / fst (snapGrid E));
            y := snd (snapGrid E) * Math.round (y next / snd (snapGrid E)) |}
    else next in
  calcNextPosition E n next.

Definition moved (px py : float) (n : NodeDragItem) : bool :=
  let computedPosition := nextPosition px py n in
  negb (x (position n) =? x computedPosition)
  || negb (y (position n) =? y computedPosition).

Definition updateNodes (p : XYPosition) : action :=
  modify (set_lastPos (Some (x p), Some (y p))) ;;
  fun s =>
    let hasChange := existsb (moved (x p) (y p)) (dragItems s) in
    let items :=
      map (fun n => mkItem (itemId n) (nextPosition (x p) (y p) n) (distance n))
          (dragItems s) in
    (modify (set_dragItems items) ;;
     when (fun _ => hasChange)
       (emit (UpdateNodePositions items true true) ;;
        modify (set_dragging true) ;;
        when (fun s' => match dragEvent s' with Some _ => true | None => false end)
             (emit OnDrag))) s.

Definition autoPan : action :=
  fun s =>
    match containerBounds s with
    | None => (s, [])
    | Some bounds =>
        let '(xMovement, yMovement) := calcAutoPan E (mousePosition s) bounds in
        (when (fun _ => negb (xMovement =? 0) || negb (yMovement =? 0))
           (fun s' =>
              let nextPos :=
                {| x := orZero (fst (lastPos s')) - xMovement / zoom E;
                   y := orZero (snd (lastPos s')) - yMovement / zoom E |} in
              (emit (PanBy (xMovement, yMovement)) ;;
               when (fun _ => panBy E (xMovement, yMovement))
                    (updateNodes nextPos)) s') ;;
         modify (set_autoPanScheduled true)) s
    end.

Definition startDrag (ev : UseDragEvent) : action :=
  modify (set_dragStarted true) ;;
  when (fun _ => negb (selectNodesOnDrag E) && negb (multiSelectionActive E)
                 && match nodeSelected E with
                    | Some selected => negb selected
                    | None => false
                    end)
       (emit RemoveSelectedNodes) ;;
  when (fun _ => match nodeSelected E with Some _ => true | None => false end
                 && selectable E && selectNodesOnDrag E)
       (emit HandleNodeClick) ;;
  modify (set_lastPos (Some (ptX (pointer ev)), Some (ptY (pointer ev)))) ;;
  modify (set_dragItems (getDragItems E (pointer ev))) ;;
  when (fun s => negb (Nat.eqb (List.length (dragItems s)) 0)) (emit OnStart).

Definition eventStart (ev : UseDragEvent) : action :=
  fun s =>
    if multiTouchMove ev then (s, [])
    else
      (when (fun _ => nodeDragThreshold E =? 0) (startDrag ev) ;;
       modify (set_lastPos (Some (ptX (pointer ev)), Some (ptY (pointer ev)))) ;;
       modify (set_containerBounds (containerRect E)) ;;
       modify (fun s' =>
                 set_mousePosition (getEventPosition ev (containerBounds s')) s')) s.

Definition eventDrag (ev : UseDragEvent) : action :=
  let pointerPos := pointer ev in
  when (fun s => negb (autoPanStarted s) && dragStarted s && autoPanOnNodeDrag E)
       (modify (set_autoPanStarted true) ;; autoPan) ;;
  when (fun s => negb (dragStarted s))
       (when (fun s => nodeDragThreshold E <? travelled pointerPos (lastPos s))
             (startDrag ev)) ;;
  when (fun s => (differs (fst (lastPos s)) (xSnapped pointerPos)
                  || differs (snd (lastPos s)) (ySnapped pointerPos))
                 && negb (Nat.eqb (List.length (dragItems s)) 0)
                 && dragStarted s)
       (modify (set_dragEvent (Some ev)) ;;
        modify (fun s =>
                  set_mousePosition (getEventPosition ev (containerBounds s)) s) ;;
        updateNodes {| x := ptX pointerPos; y := ptY pointerPos |}).

Definition eventEnd (ev : UseDragEvent) : action :=
  fun s =>
    if negb (dragStarted s)
    then
      let distance := travelled (pointer ev) (lastPos s) in
      when (fun _ => negb (distance =? 0) && (distance <=? nodeDragThreshold E))
           (when (fun _ => hasOnClick E) (emit OnClick)) s
    else
      (modify (set_dragging false) ;;
       modify (set_autoPanStarted false) ;;
       modify (set_dragStarted false) ;;
       modify (set_autoPanScheduled false) ;;     (* cancelAnimationFrame *)
       when (fun s' => negb (Nat.eqb (List.length (dragItems s')) 0))
            (fun s' => (emit (UpdateNodePositions (dragItems s') false false) ;;
                        emit OnStop) s')) s.

(** An animation frame: runs [autoPan] when one is pending. *)
Definition frame : action :=
  when autoPanScheduled (modify (set_autoPanScheduled false) ;; autoPan).

End Handlers.

(** What the host delivers: the three d3 events and animation frames, each
    with the store as it is at that moment. *)
Inductive input : Type :=
| Start (E : env) (ev : UseDragEvent)
| Move (E : env) (ev : UseDragEvent)
| End_ (E : env) (ev : UseDragEvent)
| Frame (E : env).

Definition handle (i : input) : action :=
  match i with
  | Start E ev => eventStart E ev
  | Move E ev => eventDrag E ev
  | End_ E ev => eventEnd E ev
  | Frame E => frame E
  end.

Fixpoint run (inputs : list input) : action :=
  match inputs with
  | [] => skip
  | i :: rest => handle i ;; run rest
  end.

(** The calls made by a run from [s]. *)
Definition trace (inputs : list input) (s : state) : list effect :=
  snd (run inputs s).

(** Whether, reading [t] from the left, [OnStart] comes before any
    [OnDrag]. *)
Fixpoint startBeforeDrag (t : list effect) : bool :=
  match t with
  | [] => true
  | OnStart :: _ => true
  | OnDrag :: _ => false
  | _ :: rest => startBeforeDrag rest
  end.

Definition isDragCallback (e : effect) : bool :=
  match e with OnStart | OnDrag | OnStop => true | _ => false end.

(** A trace without [OnStart] and without [OnDrag]. *)
Definition quiet (t : list effect) : bool :=
  forallb (fun e => match e with OnStart | OnDrag => false | _ => true end) t.

(** A trace in which [OnStart] occurs, before any [OnDrag]. *)
Definition started (t : list effect) : Prop :=
  startBeforeDrag t = true /\ In OnStart t.

(** Pending: pointer down (or idle), the drag has not started and no
    animation frame is requested. *)
Definition pending (s : state) : Prop :=
  dragStarted s = false /\ autoPanScheduled s = false.

(** The drag has started on an empty set of drag items. *)
Definition startedWithoutItems (s : state) : Prop :=
  dragStarted s = true /\ dragItems s = [].

(** What a handler does to a state in which no [OnDrag] can be due: it
    calls [onStart] before anything else of the drag, or it stays silent
    and leaves such a state. *)
Definition calm (r : state * list effect) : Prop :=
  started (snd r)
  \/ (quiet (snd r) = true
      /\ (pending (fst r) \/ startedWithoutItems (fst r))).

(** A mouse event at [(px, py)], without snapping. *)
Definition mouseAt (px py : float) : UseDragEvent :=
  {| pointer := {| ptX := px; ptY := py; xSnapped := px; ySnapped := py |};
     clientX := px; clientY := py; multiTouchMove := false |}.

(** A store with one draggable node ["n1"] at the origin, no grid, no
    extent and a pointer that stays away from the edges of the container. *)
Definition store (threshold : float) : env :=
  {| nodeDragThreshold := threshold;
     snapToGrid := false;
     snapGrid := (15, 15);
     autoPanOnNodeDrag := true;
     zoom := 1;
     selectNodesOnDrag := true;
     multiSelectionActive := false;
     selectable := true;
     hasOnClick := true;
     nodeSelected := Some false;
     containerRect := Some {| left := 0; top := 0; rectWidth := 800; rectHeight := 600 |};
     getDragItems := fun p =>
       [ {| itemId := "n1"; position := {| x := 0; y := 0 |};
            distance := {| x := ptX p; y := ptY p |} |} ];
     calcNextPosition := fun _ next => next;
     calcAutoPan := fun _ _ => (0, 0);
     panBy := fun _ => false |}.

(** The invariant of the animation loop: a frame is requested only while
    the drag is started. *)
Definition framesOnlyWhileStarted (s : state) : Prop :=
  autoPanScheduled s = true -> dragStarted s = true.

End Drag.

(** ** Viewport mapping and clamping *)

Module Viewport.

Import Geometry.

(** [Math.round]: the nearest integer, a half going up. *)
Definition round (a : number) : number :=
  match a with
  | Fin q => Fin (inject_Z (Qfloor (q + (1 # 2))))
  | _ => a
  end.

(** [[[minX, minY], [maxX, maxY]]] *)
Definition CoordinateExtent : Type := ((number * number) * (number * number))%type.

Definition clampPosition (position : XYPosition) (extent : CoordinateExtent)
  : XYPosition :=
  {| x := clamp (x position) (fst (fst extent)) (fst (snd extent));
     y := clamp (y position) (snd (fst extent)) (snd (snd extent)) |}.

Definition pointToRendererPoint (p : XYPosition) (t : Transform)
  (snapToGrid : bool) (snapGrid : number * number) : XYPosition :=
  let '(tx, ty, tScale) := t in
  let '(snapX, snapY) := snapGrid in
  let position :=
    {| x := ((x p - tx) / tScale)%num; y := ((y p - ty) / tScale)%num |} in
  if snapToGrid
  then {| x := (snapX * round (x position / snapX))%num;
          y := (snapY * round (y position / snapY))%num |}
  else position.

Definition graphPosToZoomedPos (p : XYPosition) (t : Transform) : XYPosition :=
  let '(tx, ty, tScale) := t in
  {| x := (x p * tScale + tx)%num; y := (y p * tScale + ty)%num |}.

(** Numeric equality of positions, rects and boxes, field by field with
    [===]. *)
Definition samePosition (p q : XYPosition) : bool :=
  eqb (x p) (x q) && eqb (y p) (y q).

Definition sameBox (a b : Box) : bool :=
  eqb (bx a) (bx b) && eqb (by_ a) (by_ b)
  && eqb (x2 a) (x2 b) && eqb (y2 a) (y2 b).

(** [inner] lies within [outer]. *)
Definition contains (outer inner : Box) : bool :=
  leb (bx outer) (bx inner) && leb (by_ outer) (by_ inner)
  && leb (x2 inner) (x2 outer) && leb (y2 inner) (y2 outer).

(** No coordinate is [NaN]. *)
Definition definedBox (b : Box) : bool :=
  negb (isNaN (bx b)) && negb (isNaN (by_ b))
  && negb (isNaN (x2 b)) && negb (isNaN (y2 b)).

End Viewport.

(** ** Edges connected to a set of nodes *)

Module Connected.

Import Graph.

Definition getConnectedEdges (nodes edges : Elements) : Elements :=
  let nodeIds := map (fun node => get node Kid) nodes in
  filter (fun edge => includes nodeIds (get edge Ksource)
                      || includes nodeIds (get edge Ktarget))
         edges.

(** Both handles of an element are falsy: absent, [undefined], [null] or
    the empty string. *)
Definition noHandles (e : element) : bool :=
  negb (truthy (get e KsourceHandle)) && negb (truthy (get e KtargetHandle)).

(** No two neighbours in the array both satisfy [p]. *)
Fixpoint noAdjacent (p : element -> bool) (l : Elements) : bool :=
  match l with
  | a :: rest =>
      match rest with
      | b :: _ => negb (p a && p b) && noAdjacent p rest
      | [] => true
      end
  | [] => true
  end.

End Connected.

(** ** Selection along the parent chain *)

Module Selection.

(** The fields of a [GraphNode] that [isParentSelected] reads; [selected]
    is an optional flag. *)
#[local] Unset Elimination Schemes.
Inductive GraphNode : Type := mkNode {
  selected : option bool;
  parentNode : option GraphNode
}.
#[local] Set Elimination Schemes.

Definition isSelected (node : GraphNode) : bool :=
  match selected node with Some b => b | None => false end.

Fixpoint isParentSelected (node : GraphNode) : bool :=
  match parentNode node with
  | None => false
  | Some parent =>
      if isSelected parent then true else isParentSelected parent
  end.

(** The parent, its parent, and so on. *)
Fixpoint ancestors (node : GraphNode) : list GraphNode :=
  match parentNode node with
  | None => []
  | Some parent => parent :: ancestors parent
  end.

End Selection.

(** ** The chain of parents of a nested node *)

Module NestedChain.

Import Nested.
Local Open Scope Q_scope.

(** The parent, its parent, and so on. *)
Fixpoint ancestors (node : GraphNode) : list GraphNode :=
  match parentNode node with
  | None => []
  | Some parent => parent :: ancestors parent
  end.

(** The sum of the local positions of the ancestors, per axis. *)
Definition offsetX (node : GraphNode) : Q :=
  fold_right Qplus 0 (map (fun a => x (position a)) (ancestors node)).

Definition offsetY (node : GraphNode) : Q :=
  fold_right Qplus 0 (map (fun a => y (position a)) (ancestors node)).

End NestedChain.

(** ** Calls that a handler never makes *)

Module DragTraces.

Import Drag.

(** The action [a] never makes the call [e]. *)
Definition never (e : effect) (a : action) : Prop :=
  forall s, ~ In e (snd (a s)).

(** The store actions of [startDrag], in the order of the code. *)
Definition startDragActions (E : env) : list effect :=
  (if negb (selectNodesOnDrag E) && negb (multiSelectionActive E)
      && match nodeSelected E with
         | Some selected => negb selected
         | None => false
         end
   then [RemoveSelectedNodes] else [])
  ++ (if match nodeSelected E with Some _ => true | None => false end
         && selectable E && selectNodesOnDrag E
      then [HandleNodeClick] else []).

End DragTraces.

(* ================================================================== *)
(** * Part II: properties *)
(* ================================================================== *)

(** ** Graph model *)

Module GraphProps.

Import Graph.
Local Open Scope string_scope.
Local Open Scope list_scope.

Lemma strictEq_refl (v : value) : strictEq v v = true.
Proof.
  destruct v as [| |b|s]; simpl; trivial.
  - now destruct b.
  - apply String.eqb_refl.
Qed.

Lemma strictEq_eq (a b : value) : strictEq a b = true <-> a = b.
Proof.
  split.
  - destruct a as [| |x|x], b as [| |y|y]; simpl; intros H;
      try discriminate; trivial.
    + apply Bool.eqb_prop in H. now subst.
    + apply String.eqb_eq in H. now subst.
  - intros ->. apply strictEq_refl.
Qed.

Lemma includes_In (ids : list value) (v : value) :
  includes ids v = true <-> In v ids.
Proof.
  unfold includes. rewrite existsb_exists. split.
  - intros [w [Hw Heq]]. apply strictEq_eq in Heq. now subst.
  - intros H. exists v. split; [assumption | apply strictEq_refl].
Qed.

(** *** Connectivity *)

(** What [getConnectedElements] selects, for either direction: the elements
    whose id is the [d] end of an edge that leaves [n]. *)
Lemma getConnectedElements_spec (n : element) (els : Elements) (d : dir) (e : element) :
  isNode n = true ->
  In e (getConnectedElements n els d) <->
  In e els /\
  exists ed, In ed els /\ isEdge ed = true
             /\ get ed Ksource = get n Kid
             /\ get ed (dirKey d) = get e Kid.
Proof.
  intros Hn. unfold getConnectedElements. rewrite Hn. simpl negb. cbv iota.
  rewrite filter_In, includes_In, in_map_iff.
  split.
  - intros [He [ed [Hid Hed]]]. split; [assumption|].
    apply filter_In in Hed. destruct Hed as [Hin Hp].
    apply andb_true_iff in Hp. destruct Hp as [Hedge Hsrc].
    rewrite Hedge in Hid. apply strictEq_eq in Hsrc.
    exists ed. repeat split; assumption.
  - intros [He [ed [Hin [Hedge [Hsrc Hd]]]]]. split; [assumption|].
    exists ed. rewrite Hedge. split; [assumption|].
    apply filter_In. split; [assumption|].
    rewrite Hedge, Hsrc. apply strictEq_refl.
Qed.

(** [getOutgoers] follows the outgoing edges of the node. *)
Lemma getOutgoers_spec (n : element) (els : Elements) (e : element) :
  isNode n = true ->
  In e (getOutgoers n els) <->
  In e els /\
  exists ed, In ed els /\ isEdge ed = true
             /\ get ed Ksource = get n Kid /\ get ed Ktarget = get e Kid.
Proof. apply getConnectedElements_spec. Qed.

(** [getIncomers] starts from the outgoing edges as well: it yields the
    elements that carry the id of the node itself, when an edge leaves it. *)
Lemma getIncomers_spec (n : element) (els : Elements) (e : element) :
  isNode n = true ->
  In e (getIncomers n els) <->
  In e els /\ get e Kid = get n Kid
  /\ exists ed, In ed els /\ isEdge ed = true /\ get ed Ksource = get n Kid.
Proof.
  intros Hn. unfold getIncomers. rewrite getConnectedElements_spec by assumption.
  simpl dirKey. split.
  - intros [He [ed [Hin [Hedge [Hsrc Hd]]]]]. repeat split; try assumption.
    + congruence.
    + exists ed. repeat split; assumption.
  - intros [He [Hid [ed [Hin [Hedge Hsrc]]]]]. split; [assumption|].
    exists ed. repeat split; try assumption. congruence.
Qed.

(** C1.  On the graph [a -> b] the incomers of [b] come out empty and the
    incomers of [a] are [a] itself, where the nodes reached by one incoming
    edge are [a] for [b] and none for [a]; the outgoers are as expected. *)
Theorem getIncomers_reads_outgoing_edges :
  let a := node "a" in
  let b := node "b" in
  let els := [a; b; edge "e" "a" "b"] in
  getOutgoers a els = [b] /\ getOutgoers b els = []
  /\ getIncomers b els = [] /\ getIncomers a els = [a].
Proof. repeat split; reflexivity. Qed.

(** *** Cascading removal *)

Section Removal.

Variable toRemove : Elements.

Lemma splice_out_nth (arr : Elements) (k : nat) (e : element) :
  nth_error arr k = Some e ->
  exists before after,
    arr = before ++ e :: after /\ splice arr k 1 [] = before ++ after.
Proof.
  intros H. apply nth_error_split in H.
  destruct H as [before [after [Harr Hlen]]].
  exists before, after. split; [assumption|].
  unfold splice. subst arr k. simpl app.
  rewrite firstn_app, firstn_all, Nat.sub_diag. simpl firstn.
  rewrite app_nil_r. f_equal.
  rewrite skipn_app, skipn_all2 by lia.
  replace (List.length before + 1 - List.length before)%nat with 1%nat by lia.
  reflexivity.
Qed.

(** The in-place sweep only drops elements that the final filter drops
    too, whatever it skips. *)
Lemma forEachSplice_filter (fuel k : nat) (arr : Elements) :
  filter (fun e => negb (shouldRemove toRemove e)) (forEachSplice toRemove fuel k arr)
  = filter (fun e => negb (shouldRemove toRemove e)) arr.
Proof.
  revert k arr. induction fuel as [|fuel IH]; intros k arr; simpl.
  - reflexivity.
  - destruct (nth_error arr k) as [e|] eqn:Hk.
    + rewrite IH. destruct (shouldRemove toRemove e) eqn:Hrm.
      * destruct (splice_out_nth _ _ Hk) as [before [after [Harr Hsp]]].
        rewrite Hsp, Harr, !filter_app. cbn [filter].
        now rewrite Hrm.
      * reflexivity.
    + apply IH.
Qed.

Lemma removeElements_returned (els : Elements) :
  returned (removeElements toRemove els)
  = filter (fun e => negb (shouldRemove toRemove e)) els.
Proof. unfold removeElements. simpl. apply forEachSplice_filter. Qed.

End Removal.

(** C5 (as amended).  When the empty string is not among the ids to remove,
    [removeElements] returns, in order and unchanged, exactly the elements
    whose id is not to be removed and that are not edges with a source or a
    target to be removed. *)
Theorem removeElements_cascade (toRemove els : Elements) :
  includes (nodeIdsToRemove toRemove) (VString "") = false ->
  returned (removeElements toRemove els) = filter (survivesRemoval toRemove) els.
Proof.
  intros Hempty. rewrite removeElements_returned.
  apply filter_ext. intros e.
  unfold shouldRemove, survivesRemoval.
  destruct (isEdge e); simpl.
  - destruct (includes _ (get e Kid)), (includes _ (get e Ktarget)),
      (includes _ (get e Ksource)); reflexivity.
  - rewrite Hempty, !orb_false_r, andb_true_r. reflexivity.
Qed.

Lemma removeElements_cascade_witness :
  includes (nodeIdsToRemove [node "a"]) (VString "") = false
  /\ returned (removeElements [node "a"]
                 [node "a"; node "b"; node "c"; edge "ab" "a" "b";
                  edge "bc" "b" "c"; edge "ca" "c" "a"])
     = [node "b"; node "c"; edge "bc" "b" "c"].
Proof.
  split; [reflexivity|].
  rewrite (@removeElements_cascade [node "a"]); reflexivity.
Defined.

(** C5 (as stated) fails when an element to remove has the empty id: every
    node is swept, although its id is not to be removed. *)
Lemma removeElements_empty_id_sweeps_nodes :
  returned (removeElements [node ""] [node "a"])
  <> filter (survivesRemoval [node ""]) [node "a"].
Proof. vm_compute. discriminate. Qed.

(** *** Adding and updating edges *)

Lemma truthy_has (e : element) (k : key) :
  truthy (get e k) = true -> has k e = true.
Proof. unfold get, has. destruct (own e k); [trivial | discriminate]. Qed.

(** An element matches itself in [connectionExists]. *)
Lemma connectionExists_here (e : element) (before after : Elements) :
  isEdge e = true -> connectionExists e (before ++ e :: after) = true.
Proof.
  intros He. unfold connectionExists. apply existsb_exists.
  exists e. split; [apply in_elt|].
  rewrite He, !strictEq_refl. reflexivity.
Qed.

Lemma candidate_isEdge (c : element) :
  truthy (get c Ksource) = true -> truthy (get c Ktarget) = true ->
  isEdge (candidate c) = true.
Proof.
  intros Hs Ht. unfold candidate.
  destruct (isEdge c) eqn:Hc; [assumption|].
  apply truthy_has in Hs, Ht. unfold isEdge, has in *. simpl in *.
  now rewrite Hs, Ht.
Qed.

(** A duplicate leaves the collection as it is. *)
Lemma addEdge_duplicate (c : element) (els : Elements) :
  truthy (get c Ksource) = true -> truthy (get c Ktarget) = true ->
  connectionExists (candidate c) els = true ->
  addEdge c els = {| returned := els; stored := els; warnings := [] |}.
Proof. intros Hs Ht Hex. unfold addEdge. now rewrite Hs, Ht, Hex. Qed.

(** A new edge is pushed onto the argument array and then appended once more
    to the copy that is returned. *)
Lemma addEdge_fresh (c : element) (els : Elements) :
  truthy (get c Ksource) = true -> truthy (get c Ktarget) = true ->
  connectionExists (candidate c) els = false ->
  addEdge c els = {| returned := els ++ [candidate c; candidate c];
                     stored := els ++ [candidate c];
                     warnings := [] |}.
Proof.
  intros Hs Ht Hex. unfold addEdge. rewrite Hs, Ht, Hex. simpl.
  now rewrite <- app_assoc.
Qed.

(** Adding the same connection to the returned collection changes nothing. *)
Lemma addEdge_again (c : element) (els : Elements) :
  truthy (get c Ksource) = true -> truthy (get c Ktarget) = true ->
  returned (addEdge c (returned (addEdge c els))) = returned (addEdge c els).
Proof.
  intros Hs Ht.
  destruct (connectionExists (candidate c) els) eqn:Hex.
  - rewrite (addEdge_duplicate _ _ Hs Ht Hex). simpl.
    now rewrite (addEdge_duplicate _ _ Hs Ht Hex).
  - rewrite (addEdge_fresh _ _ Hs Ht Hex). simpl.
    rewrite addEdge_duplicate; trivial.
    apply connectionExists_here. now apply candidate_isEdge.
Qed.

(** C2.  Adding the connection [a -> b] to the empty collection returns the
    new edge twice (and leaves it once in the argument array), where one new
    edge is to be appended. *)
Theorem addEdge_appends_twice :
  let c := connection "a" "b" in
  let e := edge "vueflow__edge-aundefined-bundefined" "a" "b" in
  addEdge c [] = {| returned := [e; e]; stored := [e]; warnings := [] |}.
Proof. reflexivity. Qed.

Lemma indexOf_nth (arr : Elements) (x : element) (i : nat) :
  indexOf arr x = Some i -> nth_error arr i = Some x.
Proof.
  revert i. induction arr as [|y rest IH]; intros i; simpl; [discriminate|].
  destruct (element_eq_dec y x) as [->|Hne].
  - intros [= <-]. reflexivity.
  - destruct (indexOf rest x) as [j|]; simpl; [|discriminate].
    intros [= <-]. simpl. now apply IH.
Qed.

Lemma indexOf_In (arr : Elements) (x : element) :
  In x arr -> exists i, indexOf arr x = Some i.
Proof.
  induction arr as [|y rest IH]; simpl; [tauto|].
  intros Hin. destruct (element_eq_dec y x) as [->|Hne]; [now exists 0%nat|].
  destruct Hin as [->|Hin]; [congruence|].
  destruct (IH Hin) as [j Hj]. rewrite Hj. now exists (S j).
Qed.

(** When the old edge is found and the derived id is a new one, the
    replacement takes the place of the found edge in the argument array and
    is appended once more to the filtered copy that is returned. *)
Lemma updateEdge_found (o c : element) (els : Elements) (found : element) :
  truthy (get c Ksource) = true -> truthy (get c Ktarget) = true ->
  find (fun e => isEdge e && strictEq (get e Kid) (get o Kid)) els = Some found ->
  get o Kid <> VString (getEdgeId c) ->
  In (retarget o c) (stored (updateEdge o c els))
  /\ exists kept, returned (updateEdge o c els) = kept ++ [retarget o c]
                /\ In (retarget o c) kept.
Proof.
  intros Hs Ht Hfind Hid. unfold updateEdge. rewrite Hs, Ht, Hfind. simpl.
  destruct (find_some _ _ Hfind) as [Hin _].
  destruct (indexOf_In _ _ Hin) as [i Hi]. rewrite Hi.
  assert (Hsp : In (retarget o c) (splice els i 1 [retarget o c])).
  { unfold splice. rewrite in_app_iff. right. now left. }
  split; [assumption|].
  eexists. split; [reflexivity|].
  apply filter_In. split; [assumption|].
  apply negb_true_iff. destruct (strictEq _ _) eqn:Heq; [|reflexivity].
  apply strictEq_eq in Heq. exfalso. apply Hid. now rewrite <- Heq.
Qed.

(** C3.  Retargeting the only edge [e1 : a -> b] to [a -> c] returns the
    replacement twice, where exactly one edge with the new endpoints is to
    exist; the old edge is gone. *)
Theorem updateEdge_appends_twice :
  let o := edge "e1" "a" "b" in
  let c := connection "a" "c" in
  let e := {| id := Some (VString "vueflow__edge-aundefined-cundefined");
              source := Some (VString "a"); target := Some (VString "c");
              sourceHandle := Some VUndefined; targetHandle := Some VUndefined;
              extra := [] |} in
  updateEdge o c [o] = {| returned := [e; e]; stored := [e]; warnings := [] |}.
Proof. reflexivity. Qed.

(** C9.  A connection without source or target, for [addEdge] and for
    [updateEdge], and an old edge whose id is on no edge of the collection,
    for [updateEdge], give one diagnostic and the collection as it was, both
    as the result and in place. *)
Theorem soft_failures (els : Elements) :
  (forall c,
      truthy (get c Ksource) && truthy (get c Ktarget) = false ->
      addEdge c els
      = {| returned := els; stored := els; warnings := [addEdge_warning] |})
  /\ (forall o c,
        truthy (get c Ksource) && truthy (get c Ktarget) = false ->
        updateEdge o c els
        = {| returned := els; stored := els; warnings := [updateEdge_warning] |})
  /\ (forall o c,
        (forall e, In e els -> isEdge e = true -> get e Kid <> get o Kid) ->
        returned (updateEdge o c els) = els
        /\ stored (updateEdge o c els) = els
        /\ (warnings (updateEdge o c els) = [updateEdge_warning]
            \/ warnings (updateEdge o c els) = [notFound_warning o])).
Proof.
  split; [|split].
  - intros c H. unfold addEdge. rewrite <- negb_andb, H. reflexivity.
  - intros o c H. unfold updateEdge. rewrite <- negb_andb, H. reflexivity.
  - intros o c Hno. unfold updateEdge.
    destruct (negb _ || negb _); [simpl; auto|].
    destruct (find _ els) as [found|] eqn:Hfind; [|simpl; auto].
    exfalso. apply find_some in Hfind. destruct Hfind as [Hin Hp].
    apply andb_true_iff in Hp. destruct Hp as [Hedge Heq].
    apply strictEq_eq in Heq. exact (Hno found Hin Hedge Heq).
Qed.

Lemma soft_failures_witness :
  let els := [node "a"; node "b"; edge "ab" "a" "b"] in
  addEdge (connection "a" "") els
  = {| returned := els; stored := els; warnings := [addEdge_warning] |}
  /\ updateEdge (edge "ab" "a" "b") (connection "" "b") els
     = {| returned := els; stored := els; warnings := [updateEdge_warning] |}
  /\ returned (updateEdge (edge "zz" "a" "b") (connection "b" "a") els) = els.
Proof.
  intros els. destruct (soft_failures els) as [Hadd [Hupd Hnone]].
  split; [apply Hadd; reflexivity|].
  split; [apply Hupd; reflexivity|].
  apply Hnone. intros e Hin Hedge.
  destruct Hin as [<-|[<-|[<-|[]]]]; discriminate.
Defined.

End GraphProps.

(** ** Nested position resolver *)

Module NestedProps.

Import Nested.
Local Open Scope Q_scope.

(** Induction along the chain of parents. *)
Lemma parent_chain_ind (P : GraphNode -> Prop) :
  (forall pos cp, P (mkNode pos cp None)) ->
  (forall pos cp parent, P parent -> P (mkNode pos cp (Some parent))) ->
  forall node, P node.
Proof.
  intros Hroot Hchild. fix IH 1. intros [pos cp [parent|]].
  - apply Hchild, IH.
  - apply Hroot.
Qed.

(** The walk adds the same offsets to whatever it starts from. *)
Lemma calculateXYZPosition_shift (node : GraphNode) :
  forall r1 r2,
    px (calculateXYZPosition node r1) - px r1
    == px (calculateXYZPosition node r2) - px r2
    /\ py (calculateXYZPosition node r1) - py r1
       == py (calculateXYZPosition node r2) - py r2.
Proof.
  induction node as [pos cp | pos cp parent IH] using parent_chain_ind;
    intros r1 r2; simpl.
  - split; ring.
  - set (z := if gtb _ _ then _ else _).
    destruct (IH (mkXYZ (px r1 + x (position parent)) (py r1 + y (position parent)) z)
                 (mkXYZ (px r2 + x (position parent)) (py r2 + y (position parent)) z))
      as [Hx Hy].
    cbn [px py] in Hx, Hy.
    revert Hx Hy.
    generalize (calculateXYZPosition parent
                  (mkXYZ (px r1 + x (position parent)) (py r1 + y (position parent)) z)).
    generalize (calculateXYZPosition parent
                  (mkXYZ (px r2 + x (position parent)) (py r2 + y (position parent)) z)).
    intros B A Hx Hy. split; lra.
Qed.

(** With a parent that has no parent, the index is compared with the
    parent's once. *)
Lemma resolve_z_one_level (node parent : GraphNode) :
  parentNode node = Some parent -> parentNode parent = None ->
  pz (resolveAbsolutePosition node)
  = if gtb (pz (computedPosition parent)) (pz (computedPosition node))
    then pz (computedPosition parent) + 1
    else pz (computedPosition node).
Proof.
  intros Hn Hp. unfold resolveAbsolutePosition.
  destruct node as [pos cp pn]. simpl in *. subst pn.
  destruct parent as [ppos pcp ppn]. simpl in *. subst ppn. reflexivity.
Qed.




End NestedProps.

(** ** Geometry kernel *)

Module GeometryProps.

Import Geometry.
Local Open Scope Q_scope.

(** *** Arithmetic on finite numbers *)

Lemma min_Fin (a b : Q) : min (Fin a) (Fin b) = Fin (Qmin a b).
Proof.
  unfold min, Qmin, GenericMinMax.gmin. simpl.
  destruct (a ?= b); reflexivity.
Qed.

Lemma max_Fin (a b : Q) : max (Fin a) (Fin b) = Fin (Qmax a b).
Proof.
  unfold max, Qmax, GenericMinMax.gmax. simpl.
  destruct (a ?= b); reflexivity.
Qed.

Lemma clamp_Fin (v lo hi : Q) :
  clamp (Fin v) (Fin lo) (Fin hi) = Fin (Qmin (Qmax v lo) hi).
Proof. unfold clamp. now rewrite max_Fin, min_Fin. Qed.

Lemma div_Fin (a b : Q) : ~ b == 0 -> div (Fin a) (Fin b) = Fin (a / b).
Proof.
  intros Hb. simpl. destruct (Qeq_bool b 0) eqn:E; [|reflexivity].
  apply Qeq_bool_iff in E. contradiction.
Qed.

Lemma ltb_Fin (a b : Q) : ltb (Fin a) (Fin b) = true <-> a < b.
Proof.
  unfold ltb. simpl. rewrite Qlt_alt.
  destruct (a ?= b); split; congruence.
Qed.

Lemma leb_Fin (a b : Q) : leb (Fin a) (Fin b) = true <-> a <= b.
Proof.
  unfold leb. simpl. rewrite Qle_alt.
  destruct (a ?= b); split; congruence.
Qed.

Lemma Qceiling_pos (q : Q) : 0 < inject_Z (Qceiling q) <-> 0 < q.
Proof.
  split; intros H.
  - pose proof (Qceiling_lt q) as Hlt.
    assert (Hz : (0 < Qceiling q)%Z).
    { rewrite Zlt_Qlt. exact H. }
    assert (Hge : 0 <= inject_Z (Qceiling q - 1)).
    { rewrite <- (Zle_Qle 0). lia. }
    lra.
  - pose proof (Qle_ceiling q). lra.
Qed.

(** Rounding the overlap up does not change whether it is positive. *)
Lemma gtb_ceil_zero (a : number) : gtb (ceil a) (Fin 0) = gtb a (Fin 0).
Proof.
  destruct a as [| |q|]; try reflexivity.
  unfold gtb. simpl ceil. apply eq_true_iff_eq.
  rewrite !ltb_Fin. apply Qceiling_pos.
Qed.

(** Rounding up keeps a lower bound. *)
Lemma leb_ceil (a b : number) : leb a b = true -> leb a (ceil b) = true.
Proof.
  destruct a as [| |p|], b as [| |q|]; simpl; trivial.
  rewrite !leb_Fin. intros H. pose proof (Qle_ceiling q). lra.
Qed.

(** *** Bounding rect of no nodes *)

(** C10.  The bounding rect of the empty list is the rect of the box
    [(+Infinity, +Infinity, -Infinity, -Infinity)]: its origin is at
    [+Infinity] and its width and height are [-Infinity]. *)
Theorem getRectOfNodes_nil :
  getRectOfNodes []
  = {| rx := PosInf; ry := PosInf; rwidth := NegInf; rheight := NegInf |}
  /\ ltb (rwidth (getRectOfNodes [])) (Fin 0) = true
  /\ ltb (rheight (getRectOfNodes [])) (Fin 0) = true.
Proof. repeat split. Qed.

(** *** Nodes inside a rect *)

Lemma inclusion_cases (wd hd : option number) (dr : option bool)
  (partially : bool) (area : number) :
  (if isNull wd || isNull hd || match dr with Some b => b | None => false end
   then true
   else if partially then gtb area (Fin 0)
   else geb area (toNumber wd * toNumber hd)%num) = true <->
  (wd = None \/ hd = None \/ dr = Some true
   \/ exists w h,
       wd = Some w /\ hd = Some h
       /\ if partially
          then gtb area (Fin 0) = true
          else geb area (w * h)%num = true).
Proof.
  destruct wd as [w|]; [|split; auto].
  destruct hd as [h|]; [|split; auto].
  cbn [isNull orb toNumber].
  assert (Hnd :
    (if partially then gtb area (Fin 0) else geb area (w * h)%num) = true <->
    (Some w = None \/ Some h = None \/ @None bool = Some true
     \/ exists w' h',
         Some w = Some w' /\ Some h = Some h'
         /\ if partially
            then gtb area (Fin 0) = true
            else geb area (w' * h')%num = true)).
  { split.
    - intros H. right. right. right. exists w, h.
      destruct partially; auto.
    - intros [H|[H|[H|[w' [h' [Hw [Hh H]]]]]]]; try discriminate.
      injection Hw as <-. injection Hh as <-. destruct partially; exact H. }
  destruct dr as [[|]|].
  - split; auto.
  - rewrite Hnd. split; intros [H|[H|[H|H]]]; try discriminate; auto.
  - exact Hnd.
Qed.

Lemma insideBox_spec (rBox : Box) (partially : bool) (node : GraphNode) :
  selectable node <> Some false ->
  let dims :=
    match dimensions node with Some d => d | None => defaultDimensions end in
  insideBox rBox partially node = true <->
  (width dims = None \/ height dims = None \/ dragging node = Some true
   \/ exists w h,
       width dims = Some w /\ height dims = Some h
       /\ if partially
          then gtb (overlappingArea rBox (nodeBox node)) (Fin 0) = true
          else geb (overlappingArea rBox (nodeBox node)) (w * h)%num = true).
Proof.
  intros Hsel dims. unfold insideBox. fold dims.
  destruct (selectable node) as [[|]|]; try congruence; apply inclusion_cases.
Qed.

(** A node whose box lies in the query box by its full area is inside. *)
Lemma insideBox_full_overlap (rBox : Box) (node : GraphNode) (w h : number) :
  selectable node <> Some false ->
  dimensions node = Some {| width := Some w; height := Some h |} ->
  leb (w * h)%num (xOverlap rBox (nodeBox node) * yOverlap rBox (nodeBox node))%num
  = true ->
  insideBox rBox false node = true.
Proof.
  intros Hsel Hd Hle. apply (insideBox_spec rBox false node Hsel).
  rewrite Hd. simpl. right. right. right. exists w, h.
  repeat split. unfold geb, overlappingArea. now apply leb_ceil.
Qed.

End GeometryProps.

(** ** Order of the binary64 numbers *)

Module Binary64Order.

Local Open Scope float_scope.

(** The builtins at the inputs that tell them apart: halves, the sign of
    zero, the last fraction below [2 ** 52], [NaN] and the infinities. *)
Example Math_builtins :
  map Math.ceil [0.3; -0.3; -0; 1.5; -1.5; 4503599627370495.5; infinity; nan]
  = [1; -0; -0; 2; -1; 4503599627370496; infinity; nan]
  /\ map Math.round [0.5; -0.5; 1.5; 2.5; -2.5; -2.6; 0.49999999999999994;
                     -0; 4503599627370495.5; neg_infinity; nan]
     = [1; -0; 2; 3; -2; -3; 0; -0; 4503599627370496; neg_infinity; nan]
  /\ map (fun p => Math.max (fst p) (snd p)) [(0, -0); (-0, 0); (1, 2); (nan, 1)]
     = [0; 0; 2; nan]
  /\ map (fun p => Math.min (fst p) (snd p)) [(0, -0); (-0, 0); (1, 2); (1, nan)]
     = [-0; -0; 1; nan]
  /\ Math.sqrt 13 = 3.605551275463989.
Proof. repeat split; reflexivity. Qed.

(** The three ways two numbers compare, on their specification. *)
Lemma SFcompare_cases (x y : spec_float) :
  x <> S754_nan -> y <> S754_nan ->
  (SFltb x y = true /\ SFleb x y = true /\ SFleb y x = false
   /\ SFltb y x = false /\ SFeqb x y = false)
  \/ (SFltb x y = false /\ SFleb x y = true /\ SFleb y x = true
      /\ SFltb y x = false /\ SFeqb x y = true)
  \/ (SFltb x y = false /\ SFleb x y = false /\ SFleb y x = true
      /\ SFltb y x = true /\ SFeqb x y = false).
Proof.
  intros Hx Hy. unfold SFltb, SFleb, SFeqb.
  destruct x as [[]|[]| |[] m1 e1], y as [[]|[]| |[] m2 e2]; try congruence;
    simpl; auto 10;
    change (Pos.compare_cont Eq) with Pos.compare;
    rewrite (Z.compare_antisym e1 e2), (Pos.compare_antisym m1 m2);
    destruct (e1 ?= e2)%Z; simpl; auto 10;
    destruct (m1 ?= m2)%positive; simpl; auto 10.
Qed.

Lemma SFleb_trans (x y z : spec_float) :
  SFleb x y = true -> SFleb y z = true -> SFleb x z = true.
Proof.
  unfold SFleb.
  destruct x as [[]|[]| |[] m1 e1], y as [[]|[]| |[] m2 e2],
           z as [[]|[]| |[] m3 e3];
    simpl; try discriminate; try reflexivity;
    change (Pos.compare_cont Eq) with Pos.compare;
    destruct (Z.compare_spec e1 e2); try discriminate;
    destruct (Z.compare_spec e2 e3); try discriminate;
    destruct (Z.compare_spec e1 e3); try lia; try reflexivity; subst;
    destruct (Pos.compare_spec m1 m2); simpl; try discriminate;
    destruct (Pos.compare_spec m2 m3); simpl; try discriminate;
    destruct (Pos.compare_spec m1 m3); simpl; try lia; try reflexivity.
Qed.

Lemma not_nan (a : float) : is_nan a = false <-> Prim2SF a <> S754_nan.
Proof.
  unfold is_nan. rewrite eqb_spec, negb_false_iff. split.
  - intros H E. rewrite E in H. discriminate.
  - intros H.
    destruct (SFcompare_cases H H) as [(A&B&C&D&E)|[(A&B&C&D&E)|(A&B&C&D&E)]];
      congruence.
Qed.

(** Two numbers are in exactly one of the relations [<], [===], [>]. *)
Lemma number_compare_cases (a b : float) :
  is_nan a = false -> is_nan b = false ->
  ((a <? b) = true /\ (a <=? b) = true /\ (b <=? a) = false /\ (b <? a) = false
   /\ (a =? b) = false)
  \/ ((a <? b) = false /\ (a <=? b) = true /\ (b <=? a) = true /\ (b <? a) = false
      /\ (a =? b) = true)
  \/ ((a <? b) = false /\ (a <=? b) = false /\ (b <=? a) = true /\ (b <? a) = true
      /\ (a =? b) = false).
Proof.
  rewrite !not_nan, !ltb_spec, !leb_spec, eqb_spec. apply SFcompare_cases.
Qed.

(** A comparison with [NaN] is false. *)
Lemma number_leb_not_nan (a b : float) :
  (a <=? b) = true -> is_nan a = false /\ is_nan b = false.
Proof.
  rewrite leb_spec, !not_nan. unfold SFleb.
  destruct (Prim2SF a), (Prim2SF b); simpl; try discriminate; split; discriminate.
Qed.

Lemma number_leb_refl (a : float) : is_nan a = false -> (a <=? a) = true.
Proof.
  intros Ha.
  destruct (number_compare_cases a a Ha Ha) as [(A&B&C&D&E)|[(A&B&C&D&E)|(A&B&C&D&E)]];
    congruence.
Qed.

Lemma number_leb_trans (a b c : float) :
  (a <=? b) = true -> (b <=? c) = true -> (a <=? c) = true.
Proof. rewrite !leb_spec. apply SFleb_trans. Qed.

Lemma number_eqb_leb (a b : float) :
  (a =? b) = true <-> (a <=? b) = true /\ (b <=? a) = true.
Proof.
  split.
  - intros H.
    assert (Hn : is_nan a = false /\ is_nan b = false).
    { rewrite !not_nan. rewrite eqb_spec in H. unfold SFeqb in H.
      destruct (Prim2SF a), (Prim2SF b); simpl in H; try discriminate;
        split; discriminate. }
    destruct Hn as [Ha Hb].
    destruct (number_compare_cases a b Ha Hb) as [(A&B&C&D&E)|[(A&B&C&D&E)|(A&B&C&D&E)]];
      split; congruence.
  - intros [H1 H2]. destruct (number_leb_not_nan H1) as [Ha Hb].
    destruct (number_compare_cases a b Ha Hb) as [(A&B&C&D&E)|[(A&B&C&D&E)|(A&B&C&D&E)]];
      congruence.
Qed.

(** [Math.max] and [Math.min] return one of their arguments. *)
Lemma Math_max_cases (a b : float) :
  is_nan a = false -> is_nan b = false ->
  (Math.max a b = a /\ (b <=? a) = true) \/ (Math.max a b = b /\ (a <=? b) = true).
Proof.
  intros Ha Hb. unfold Math.max. rewrite Ha, Hb. simpl.
  destruct (number_compare_cases a b Ha Hb) as [(A&B&C&D&E)|[(A&B&C&D&E)|(A&B&C&D&E)]];
    rewrite A; try rewrite D; auto.
  destruct (get_sign a); auto.
Qed.

Lemma Math_min_cases (a b : float) :
  is_nan a = false -> is_nan b = false ->
  (Math.min a b = a /\ (a <=? b) = true) \/ (Math.min a b = b /\ (b <=? a) = true).
Proof.
  intros Ha Hb. unfold Math.min. rewrite Ha, Hb. simpl.
  destruct (number_compare_cases a b Ha Hb) as [(A&B&C&D&E)|[(A&B&C&D&E)|(A&B&C&D&E)]];
    rewrite A; try rewrite D; auto.
  destruct (get_sign a); auto.
Qed.

(** [clamp] on a number and an ordered pair of limits. *)
Lemma clamp_range (v lo hi : float) :
  is_nan v = false -> (lo <=? hi) = true ->
  let c := Binary64.clamp v lo hi in
  (lo <=? c) = true /\ (c <=? hi) = true
  /\ ((lo <=? v) = true -> (v <=? hi) = true -> (c =? v) = true)
  /\ ((v <=? lo) = true -> (c =? lo) = true)
  /\ ((hi <=? v) = true -> (c =? hi) = true).
Proof.
  intros Hv Hle c. destruct (number_leb_not_nan Hle) as [Hlo Hhi].
  subst c. unfold Binary64.clamp.
  pose proof (number_leb_refl v Hv) as Rv.
  pose proof (number_leb_refl lo Hlo) as Rlo.
  pose proof (number_leb_refl hi Hhi) as Rhi.
  destruct (Math_max_cases v lo Hv Hlo) as [[-> Hm]|[-> Hm]];
    [destruct (Math_min_cases v hi Hv Hhi) as [[-> Hn]|[-> Hn]]
    |destruct (Math_min_cases lo hi Hlo Hhi) as [[-> Hn]|[-> Hn]]];
    repeat split; trivial; intros; apply number_eqb_leb; split;
    eauto using number_leb_trans.
Qed.

(** Every number lies between the two infinities. *)
Lemma number_leb_infinity (a : float) :
  is_nan a = false -> (a <=? infinity) = true /\ (neg_infinity <=? a) = true.
Proof.
  rewrite not_nan, !leb_spec.
  replace (Prim2SF infinity) with (S754_infinity false) by reflexivity.
  replace (Prim2SF neg_infinity) with (S754_infinity true) by reflexivity.
  unfold SFleb.
  destruct (Prim2SF a) as [[]|[]| |[] m e]; simpl; intros H;
    try (exfalso; apply H; reflexivity); split; reflexivity.
Qed.

Lemma Math_min_lower (a b : float) :
  is_nan a = false -> is_nan b = false ->
  (Math.min a b <=? a) = true /\ (Math.min a b <=? b) = true
  /\ is_nan (Math.min a b) = false.
Proof.
  intros Ha Hb.
  pose proof (number_leb_refl a Ha). pose proof (number_leb_refl b Hb).
  destruct (Math_min_cases a b Ha Hb) as [[-> H1]|[-> H1]]; auto.
Qed.

Lemma Math_max_upper (a b : float) :
  is_nan a = false -> is_nan b = false ->
  (a <=? Math.max a b) = true /\ (b <=? Math.max a b) = true
  /\ is_nan (Math.max a b) = false.
Proof.
  intros Ha Hb.
  pose proof (number_leb_refl a Ha). pose proof (number_leb_refl b Hb).
  destruct (Math_max_cases a b Ha Hb) as [[-> H1]|[-> H1]]; auto.
Qed.

Lemma Math_min_greatest (a b c : float) :
  (c <=? a) = true -> (c <=? b) = true -> (c <=? Math.min a b) = true.
Proof.
  intros Ha Hb.
  destruct (number_leb_not_nan Ha) as [_ Na].
  destruct (number_leb_not_nan Hb) as [_ Nb].
  destruct (Math_min_cases a b Na Nb) as [[-> _]|[-> _]]; assumption.
Qed.

Lemma Math_max_least (a b c : float) :
  (a <=? c) = true -> (b <=? c) = true -> (Math.max a b <=? c) = true.
Proof.
  intros Ha Hb.
  destruct (number_leb_not_nan Ha) as [Na _].
  destruct (number_leb_not_nan Hb) as [Nb _].
  destruct (Math_max_cases a b Na Nb) as [[-> _]|[-> _]]; assumption.
Qed.

End Binary64Order.

(** ** The containment query and fit-to-view on binary64 *)

Module Binary64Props.

Import Binary64 Binary64Order.
Local Open Scope float_scope.

(** *** Nodes inside a rect *)

(** C6 (as amended).  In binary64, with the transform [[tx, ty, tScale]]
    (default [[0, 0, 1]]), the query box runs from
    [((rect.x - tx) / tScale, (rect.y - ty) / tScale)] over
    [rect.width / tScale] by [rect.height / tScale], the box of a node from
    its position (default [(0, 0)]) over its width and height ([null]
    counting as [0], default [0]), and the overlap on an axis is
    [Math.max(0, Math.min(q2, n2) - Math.max(q1, n1))].  A node is returned
    iff it is in the list, its [selectable] flag is not [false], and its
    width or height is [null], or it is being dragged, or, with [partially],
    [Math.ceil] of the product of the overlaps is positive and, without
    [partially], it is at least the product of the node's width and height.
    A node whose [selectable] flag is [false] is never returned. *)
Theorem getNodesInside_spec (nodes : list GraphNode) (rect : Rect)
  (transform : option Transform) (partially : option bool) (node : GraphNode) :
  let '(tx, ty, tScale) :=
    match transform with Some t => t | None => (0, 0, 1) end in
  let px := match position node with Some p => x p | None => 0 end in
  let py := match position node with Some p => y p | None => 0 end in
  let w := match dimensions node with Some d => toNumber (width d) | None => 0 end in
  let h := match dimensions node with Some d => toNumber (height d) | None => 0 end in
  let unmeasured :=
    match dimensions node with
    | Some d => width d = None \/ height d = None
    | None => False
    end in
  let qx := (rx rect - tx) / tScale in
  let qy := (ry rect - ty) / tScale in
  let qx2 := qx + rwidth rect / tScale in
  let qy2 := qy + rheight rect / tScale in
  let xOverlap := Math.max 0 (Math.min qx2 (px + w) - Math.max qx px) in
  let yOverlap := Math.max 0 (Math.min qy2 (py + h) - Math.max qy py) in
  let overlappingArea := Math.ceil (xOverlap * yOverlap) in
  (In node (getNodesInside nodes rect transform partially) <->
   In node nodes /\ selectable node <> Some false
   /\ (unmeasured \/ dragging node = Some true
       \/ match partially with
          | Some true => (0 <? overlappingArea) = true
          | _ => (w * h <=? overlappingArea) = true
          end))
  /\ (selectable node = Some false ->
      ~ In node (getNodesInside nodes rect transform partially)).
Proof.
  unfold getNodesInside.
  destruct transform as [[[tx ty] tScale]|]; cbv zeta; rewrite filter_In;
    destruct (position node) as [[px py]|];
    destruct (selectable node) as [[|]|];
    destruct (dimensions node) as [[[w|] [h|]]|];
    destruct (dragging node) as [[|]|];
    destruct partially as [[|]|];
    cbn [isNull orb width height toNumber rectToBox bx by_ x2 y2
         rx ry rwidth rheight x y];
    intuition congruence.
Qed.

Lemma getNodesInside_spec_witness :
  let n := {| position := Some {| x := 2; y := 3 |};
              dimensions := Some {| width := Some 10; height := Some 10 |};
              dragging := None; selectable := None |} in
  let hidden := {| position := Some {| x := 2; y := 3 |};
                   dimensions := Some {| width := Some 10; height := Some 10 |};
                   dragging := Some true; selectable := Some false |} in
  let rect := {| rx := 0; ry := 0; rwidth := 20; rheight := 20 |} in
  In n (getNodesInside [n; hidden] rect None None)
  /\ In n (getNodesInside [n; hidden] rect (Some (10, 10, 2)) (Some true))
  /\ ~ In hidden (getNodesInside [n; hidden] rect None (Some true)).
Proof.
  intros n hidden rect. split; [|split].
  - apply (proj1 (getNodesInside_spec [n; hidden] rect None None n)).
    split; [left; reflexivity|]. split; [discriminate|].
    right. right. reflexivity.
  - apply (proj1 (getNodesInside_spec [n; hidden] rect (Some (10, 10, 2))
                    (Some true) n)).
    split; [left; reflexivity|]. split; [discriminate|].
    right. right. reflexivity.
  - apply (proj2 (getNodesInside_spec [n; hidden] rect None (Some true) hidden)).
    reflexivity.
Defined.

(** C6 (as stated) fails without [partially] on a node that the query box
    covers by half: the overlap [0.5] is rounded up to [1], the area of the
    node, and the node is included although the overlap is not its full
    area. *)
Lemma half_covered_node_is_inside :
  let n := {| position := Some {| x := 0; y := 0 |};
              dimensions := Some {| width := Some 1; height := Some 1 |};
              dragging := Some false; selectable := Some true |} in
  let rect := {| rx := 0.5; ry := 0; rwidth := 10; rheight := 10 |} in
  let xOverlap := Math.max 0 (Math.min (0.5 + 10) (0 + 1) - Math.max 0.5 0) in
  let yOverlap := Math.max 0 (Math.min (0 + 10) (0 + 1) - Math.max 0 0) in
  ~ (In n (getNodesInside [n] rect None (Some false)) <->
     (xOverlap * yOverlap =? 1 * 1) = true).
Proof.
  intros n rect xOverlap yOverlap [Hincl _].
  assert (Hin : In n (getNodesInside [n] rect None (Some false)))
    by (left; reflexivity).
  specialize (Hincl Hin). vm_compute in Hincl. discriminate.
Qed.

(** *** Fit to view *)

(** C8 (as amended).  Every operation being rounded to binary64, the scale
    is [Math.min(W / (w * (1 + padding)), H / (h * (1 + padding)))] (the
    padding defaulting to [0.1]) clamped by [Math.min(Math.max(., minZoom),
    maxZoom)], and the translation is [W / 2 - (x + w / 2) * scale + dx]
    and [H / 2 - (y + h / 2) * scale + dy] for the offset [(dx, dy)] (an
    absent offset or component counting as [0]).  When the unclamped scale
    is a number and [minZoom <= maxZoom], the scale lies between the
    limits: it is the unclamped scale when that lies between them, and the
    limit it passes otherwise.  For the bounds [(0, 0, 100, 100)] in a
    viewport of [1000 x 1000] with padding [0.1] and the zoom range
    [[0.1, 2]] the unclamped scale exceeds [2], the scale is [2] and the
    translation [(400, 400)], which sends the centre [(50, 50)] of the
    bounds to the centre [(500, 500)] of the viewport. *)
Theorem getTransformForBounds_fits :
  (forall (bounds : Rect) (W H minZoom maxZoom : float) (padding : option float)
          (offset : option Offset),
      let p := match padding with Some p => p | None => 0.1 end in
      let dx := match offset with Some o => toNumber (ox o) | None => 0 end in
      let dy := match offset with Some o => toNumber (oy o) | None => 0 end in
      let raw :=
        Math.min (W / (rwidth bounds * (1 + p))) (H / (rheight bounds * (1 + p))) in
      exists zoom : float,
        getTransformForBounds bounds W H minZoom maxZoom padding offset
        = (W / 2 - (rx bounds + rwidth bounds / 2) * zoom + dx,
           H / 2 - (ry bounds + rheight bounds / 2) * zoom + dy,
           zoom)
        /\ zoom = Math.min (Math.max raw minZoom) maxZoom
        /\ (is_nan raw = false -> (minZoom <=? maxZoom) = true ->
            (minZoom <=? zoom) = true /\ (zoom <=? maxZoom) = true
            /\ ((minZoom <=? raw) = true -> (raw <=? maxZoom) = true ->
                (zoom =? raw) = true)
            /\ ((raw <=? minZoom) = true -> (zoom =? minZoom) = true)
            /\ ((maxZoom <=? raw) = true -> (zoom =? maxZoom) = true)))
  /\ (let bounds := {| rx := 0; ry := 0; rwidth := 100; rheight := 100 |} in
      let t := getTransformForBounds bounds 1000 1000 0.1 2 (Some 0.1) None in
      (2 <? Math.min (1000 / (100 * (1 + 0.1))) (1000 / (100 * (1 + 0.1)))) = true
      /\ t = (400, 400, 2)
      /\ graphPosToZoomedPos {| x := 0 + 100 / 2; y := 0 + 100 / 2 |} t
         = {| x := 1000 / 2; y := 1000 / 2 |}).
Proof.
  split.
  - intros bounds W H minZoom maxZoom padding offset p dx dy raw.
    exists (clamp raw minZoom maxZoom). split; [|split].
    + unfold getTransformForBounds. subst p dx dy raw.
      destruct padding, offset; reflexivity.
    + reflexivity.
    + intros Hraw Hle. exact (clamp_range raw Hraw Hle).
  - vm_compute. repeat split; reflexivity.
Qed.

Lemma getTransformForBounds_fits_witness :
  let bounds := {| rx := 10; ry := 20; rwidth := 200; rheight := 100 |} in
  let off := Some {| ox := Some 5; oy := None |} in
  exists zoom : float,
    getTransformForBounds bounds 800 600 0.5 4 (Some 0.25) off
    = (800 / 2 - (10 + 200 / 2) * zoom + 5, 600 / 2 - (20 + 100 / 2) * zoom + 0, zoom)
    /\ (0.5 <=? zoom) = true /\ (zoom <=? 4) = true
    /\ (zoom =? 800 / (200 * (1 + 0.25))) = true.
Proof.
  intros bounds off.
  destruct (proj1 getTransformForBounds_fits bounds 800 600 0.5 4 (Some 0.25) off)
    as [zoom [Heq [_ Hrange]]].
  destruct Hrange as [Hlo [Hhi [Hin _]]]; [reflexivity | reflexivity |].
  exists zoom. split; [exact Heq|]. split; [exact Hlo|]. split; [exact Hhi|].
  apply Hin; reflexivity.
Defined.

(** C8 (as stated) fails in binary64: for the bounds [(0, 0, 100, 100)] in
    a viewport of [110 x 110] with the default padding and the zoom range
    [[0.5, 2]], the scale returned is [0.9999999999999999], which is not the
    value of the formula on these numbers, and with the translation
    [5.000000000000007] the centre of the bounds is not sent to the centre
    of the viewport. *)
Lemma fit_is_rounded :
  let bounds := {| rx := 0; ry := 0; rwidth := 100; rheight := 100 |} in
  let '(tx, ty, zoom) := getTransformForBounds bounds 110 110 0.5 2 None None in
  let scale :=
    Qmin (Qmax (Qmin (110 / (100 * (1 + valueOf 0.1))) (110 / (100 * (1 + valueOf 0.1))))
               (valueOf 0.5))
         2 in
  (tx, ty, zoom) = (5.000000000000007, 5.000000000000007, 0.9999999999999999)
  /\ ~ (valueOf zoom == scale)%Q
  /\ ~ ((0 + 100 / 2) * valueOf zoom + valueOf tx == 110 / 2)%Q.
Proof.
  vm_compute. split; [reflexivity|]. split; intros H; discriminate H.
Qed.

(** *** Bounding boxes *)

Lemma definedBox_fields (b : Box) :
  definedBox b = true <->
  is_nan (bx b) = false /\ is_nan (by_ b) = false
  /\ is_nan (x2 b) = false /\ is_nan (y2 b) = false.
Proof.
  unfold definedBox. rewrite !andb_true_iff, !negb_true_iff. tauto.
Qed.

Lemma box_contains_fields (a b : Box) :
  contains a b = true <->
  (bx a <=? bx b) = true /\ (by_ a <=? by_ b) = true
  /\ (x2 b <=? x2 a) = true /\ (y2 b <=? y2 a) = true.
Proof. unfold contains. rewrite !andb_true_iff. tauto. Qed.

Lemma box_contains_trans (a b c : Box) :
  contains a b = true -> contains b c = true -> contains a c = true.
Proof.
  rewrite !box_contains_fields.
  intros (A1&A2&A3&A4) (B1&B2&B3&B4).
  repeat split; eauto using number_leb_trans.
Qed.

Lemma box_contains_refl (a : Box) : definedBox a = true -> contains a a = true.
Proof.
  rewrite definedBox_fields, box_contains_fields.
  intros (A1&A2&A3&A4). repeat split; now apply number_leb_refl.
Qed.

(** The union of two boxes contains both and is a box. *)
Lemma box_union_upper (a b : Box) :
  definedBox a = true -> definedBox b = true ->
  contains (getBoundsOfBoxes a b) a = true
  /\ contains (getBoundsOfBoxes a b) b = true
  /\ definedBox (getBoundsOfBoxes a b) = true.
Proof.
  rewrite !definedBox_fields, !box_contains_fields.
  intros (A1&A2&A3&A4) (B1&B2&B3&B4).
  unfold getBoundsOfBoxes. cbn [bx by_ x2 y2].
  destruct (Math_min_lower (bx a) (bx b) A1 B1) as (?&?&?).
  destruct (Math_min_lower (by_ a) (by_ b) A2 B2) as (?&?&?).
  destruct (Math_max_upper (x2 a) (x2 b) A3 B3) as (?&?&?).
  destruct (Math_max_upper (y2 a) (y2 b) A4 B4) as (?&?&?).
  repeat split; assumption.
Qed.

(** It lies within every box that contains both. *)
Lemma box_union_least (a b c : Box) :
  contains c a = true -> contains c b = true ->
  contains c (getBoundsOfBoxes a b) = true.
Proof.
  rewrite !box_contains_fields.
  intros (A1&A2&A3&A4) (B1&B2&B3&B4).
  unfold getBoundsOfBoxes. cbn [bx by_ x2 y2].
  repeat split;
    first [now apply Math_min_greatest | now apply Math_max_least].
Qed.

(** Every box contains the box that the fold starts from. *)
Lemma box_contains_seed (c : Box) : definedBox c = true -> contains c seedBox = true.
Proof.
  rewrite definedBox_fields, box_contains_fields.
  intros (A1&A2&A3&A4). unfold seedBox. cbn [bx by_ x2 y2].
  repeat split;
    first [now apply number_leb_infinity | now apply (number_leb_infinity _)].
Qed.

Lemma unionOfNodes_bounds (nodes : list GraphNode) (acc : Box) :
  definedBox acc = true ->
  (forall m, In m nodes -> definedBox (nodeBox m) = true) ->
  definedBox (unionOfNodes nodes acc) = true
  /\ contains (unionOfNodes nodes acc) acc = true
  /\ (forall m, In m nodes -> contains (unionOfNodes nodes acc) (nodeBox m) = true)
  /\ (forall c, contains c acc = true ->
                (forall m, In m nodes -> contains c (nodeBox m) = true) ->
                contains c (unionOfNodes nodes acc) = true).
Proof.
  revert acc. induction nodes as [|m rest IH]; intros acc Hacc Hall.
  - simpl. split; [exact Hacc|]. split; [now apply box_contains_refl|].
    split; [intros m []|]. intros c Hc _. exact Hc.
  - simpl.
    assert (Dm : definedBox (nodeBox m) = true) by (apply Hall; now left).
    destruct (box_union_upper acc (nodeBox m) Hacc Dm) as [Ua [Um Ud]].
    destruct (IH (getBoundsOfBoxes acc (nodeBox m)) Ud)
      as [Hd [Hc [Hin Hleast]]].
    { intros m' Hm'. apply Hall. now right. }
    split; [exact Hd|].
    split; [eapply box_contains_trans; eassumption|].
    split.
    + intros m' [<-|Hm']; [eapply box_contains_trans; eassumption | now apply Hin].
    + intros c Hca Hcm. apply Hleast.
      * apply box_union_least; [exact Hca | apply Hcm; now left].
      * intros m' Hm'. apply Hcm. now right.
Qed.

(** The fold on no nodes leaves the infinite box, whose rect has its origin
    at [+Infinity] and the width and height [-Infinity]. *)
Example getRectOfNodes_nil_binary64 :
  getRectOfNodes []
  = {| rx := infinity; ry := infinity;
       rwidth := neg_infinity; rheight := neg_infinity |}.
Proof. reflexivity. Qed.

(** X6.  In binary64, for nodes whose boxes hold no [NaN], the bounding
    rect is [boxToRect] of the least box that contains the box of every
    node: its origin is the origin of that box, at or before the origin of
    every node, and its width and height are the rounded differences of the
    edges of that box. *)
Theorem getRectOfNodes_bounds (nodes : list GraphNode) :
  (forall m, In m nodes -> definedBox (nodeBox m) = true) ->
  let box := unionOfNodes nodes seedBox in
  getRectOfNodes nodes
  = {| rx := bx box; ry := by_ box;
       rwidth := x2 box - bx box; rheight := y2 box - by_ box |}
  /\ (forall m, In m nodes -> contains box (nodeBox m) = true)
  /\ (forall c, definedBox c = true ->
                (forall m, In m nodes -> contains c (nodeBox m) = true) ->
                contains c box = true)
  /\ (forall m, In m nodes ->
                (rx (getRectOfNodes nodes) <=? bx (nodeBox m)) = true
                /\ (ry (getRectOfNodes nodes) <=? by_ (nodeBox m)) = true).
Proof.
  intros Hall box.
  destruct (unionOfNodes_bounds nodes seedBox eq_refl Hall)
    as [Hd [Hc [Hin Hleast]]].
  fold box in Hd, Hc, Hin, Hleast.
  split; [reflexivity|]. split; [exact Hin|]. split.
  - intros c Dc Hcm. apply Hleast; [now apply box_contains_seed | exact Hcm].
  - intros m Hm. specialize (Hin m Hm).
    apply box_contains_fields in Hin. destruct Hin as (H1&H2&_).
    split; assumption.
Qed.

Lemma getRectOfNodes_bounds_witness :
  let n1 := {| position := Some {| x := -5; y := 0 |};
               dimensions := Some {| width := Some 0.3; height := Some 20 |};
               dragging := None; selectable := None |} in
  let n2 := {| position := Some {| x := -2.6; y := -5 |};
               dimensions := Some {| width := Some 0.7; height := None |};
               dragging := None; selectable := None |} in
  getRectOfNodes [n1; n2]
  = {| rx := -5; ry := -5; rwidth := 3.0999999999999996; rheight := 25 |}
  /\ contains (unionOfNodes [n1; n2] seedBox) (nodeBox n2) = true
  /\ (rx (getRectOfNodes [n1; n2]) <=? bx (nodeBox n2)) = true.
Proof.
  intros n1 n2.
  assert (Hall : forall m, In m [n1; n2] -> definedBox (nodeBox m) = true)
    by (intros m [<-|[<-|[]]]; reflexivity).
  destruct (getRectOfNodes_bounds [n1; n2] Hall) as [_ [Hin [_ Hrx]]].
  split; [reflexivity|]. split.
  - apply Hin. right. now left.
  - apply Hrx. right. now left.
Defined.

(** The width is rounded: the box rebuilt from the rect returned for these
    two nodes ends before the right edge of the second one. *)
Example bounding_rect_is_rounded :
  let n1 := {| position := Some {| x := -5; y := 0 |};
               dimensions := Some {| width := Some 0.3; height := Some 20 |};
               dragging := None; selectable := None |} in
  let n2 := {| position := Some {| x := -2.6; y := -5 |};
               dimensions := Some {| width := Some 0.7; height := None |};
               dragging := None; selectable := None |} in
  (x2 (rectToBox (getRectOfNodes [n1; n2])) <? x2 (nodeBox n2)) = true.
Proof. reflexivity. Qed.

(** X25.  In binary64, for two rects whose boxes hold no [NaN], the union
    is [boxToRect] of the least box that contains the boxes of both: its
    origin is the smaller origin on each axis. *)
Theorem getBoundsofRects_covers (r1 r2 : Rect) :
  definedBox (rectToBox r1) = true -> definedBox (rectToBox r2) = true ->
  let box := getBoundsOfBoxes (rectToBox r1) (rectToBox r2) in
  getBoundsofRects r1 r2
  = {| rx := bx box; ry := by_ box;
       rwidth := x2 box - bx box; rheight := y2 box - by_ box |}
  /\ contains box (rectToBox r1) = true
  /\ contains box (rectToBox r2) = true
  /\ (forall c, contains c (rectToBox r1) = true -> contains c (rectToBox r2) = true ->
                contains c box = true)
  /\ (rx (getBoundsofRects r1 r2) = rx r1 \/ rx (getBoundsofRects r1 r2) = rx r2)
  /\ (ry (getBoundsofRects r1 r2) = ry r1 \/ ry (getBoundsofRects r1 r2) = ry r2).
Proof.
  intros D1 D2 box.
  destruct (box_union_upper _ _ D1 D2) as [U1 [U2 _]].
  split; [reflexivity|]. split; [exact U1|]. split; [exact U2|].
  split; [intros c C1 C2; now apply box_union_least|].
  apply definedBox_fields in D1, D2.
  destruct D1 as (A1&A2&_), D2 as (B1&B2&_).
  cbn [rectToBox bx by_] in A1, A2, B1, B2.
  unfold getBoundsofRects, getBoundsOfBoxes, boxToRect, rectToBox.
  cbn [rx ry bx by_].
  split.
  - destruct (Math_min_cases (rx r1) (rx r2) A1 B1) as [[-> _]|[-> _]]; auto.
  - destruct (Math_min_cases (ry r1) (ry r2) A2 B2) as [[-> _]|[-> _]]; auto.
Qed.

Lemma getBoundsofRects_covers_witness :
  let r1 := {| rx := -5; ry := 0; rwidth := 0.3; rheight := 10 |} in
  let r2 := {| rx := -2.6; ry := -5; rwidth := 0.7; rheight := 8 |} in
  getBoundsofRects r1 r2
  = {| rx := -5; ry := -5; rwidth := 3.0999999999999996; rheight := 15 |}
  /\ contains (getBoundsOfBoxes (rectToBox r1) (rectToBox r2)) (rectToBox r2) = true.
Proof.
  intros r1 r2. split; [reflexivity|].
  apply (proj1 (proj2 (proj2 (@getBoundsofRects_covers r1 r2 eq_refl eq_refl)))).
Defined.

End Binary64Props.

(** ** Drag session *)

Module DragProps.

Import Drag.
Local Open Scope float_scope.

(** *** A positive threshold is not zero *)

Lemma positive_nonzero (t : float) : (0 <? t) = true -> (t =? 0) = false.
Proof.
  rewrite ltb_spec, eqb_spec.
  replace (Prim2SF 0) with (S754_zero false) by reflexivity.
  unfold SFltb, SFeqb.
  destruct (Prim2SF t) as [sg|sg| |sg m e]; simpl; try discriminate;
    destruct sg; simpl; try discriminate; reflexivity.
Qed.

(** *** Traces *)

Lemma andThen_eq (a b : action) (s : state) :
  (a ;; b)%action s
  = (fst (b (fst (a s))), snd (a s) ++ snd (b (fst (a s)))).
Proof. unfold andThen. destruct (a s) as [s1 t1]. simpl. now destruct (b s1). Qed.

Lemma quiet_app (t r : list effect) : quiet (t ++ r) = quiet t && quiet r.
Proof. apply forallb_app. Qed.

Lemma startBeforeDrag_quiet (t : list effect) : quiet t = true -> startBeforeDrag t = true.
Proof.
  induction t as [|e t IH]; simpl; [trivial|].
  destruct e; simpl; try discriminate; exact IH.
Qed.

Lemma startBeforeDrag_app_quiet (t r : list effect) :
  quiet t = true -> startBeforeDrag (t ++ r) = startBeforeDrag r.
Proof.
  induction t as [|e t IH]; simpl; [trivial|].
  destruct e; simpl; try discriminate; exact IH.
Qed.

Lemma started_app_l (t r : list effect) : started t -> started (t ++ r).
Proof.
  intros [Hb Hin]. split; [|apply in_or_app; now left].
  revert Hb Hin. induction t as [|e t IH]; simpl; [tauto|].
  destruct e; simpl; trivial; try discriminate;
    intros Hb [Hd|Hin]; try discriminate; auto.
Qed.

Lemma started_app_r (t r : list effect) : quiet t = true -> started r -> started (t ++ r).
Proof.
  intros Hq [Hb Hin]. split; [|apply in_or_app; now right].
  now rewrite startBeforeDrag_app_quiet.
Qed.

(** In a trace where [OnStart] comes first, every [OnDrag] has an [OnStart]
    before it. *)
Lemma startBeforeDrag_spec (t : list effect) :
  startBeforeDrag t = true <->
  forall before after, t = before ++ OnDrag :: after ->
                       exists b1 b2, before = b1 ++ OnStart :: b2 /\ quiet b1 = true.
Proof.
  induction t as [|e t IH].
  - split; [|trivial]. intros _ [|x before] after H; discriminate.
  - split.
    + intros Hb [|x before] after Heq; simpl in Heq; injection Heq as Hx Ht.
      * subst e. discriminate.
      * subst x.
        destruct e; try (now exists [], before);
          simpl in Hb; try discriminate;
          (destruct (proj1 IH Hb before after Ht) as [b1 [b2 [Hbefore Hq]]];
           eexists (_ :: b1), b2; subst before; split; [reflexivity | exact Hq]).
    + intros H. destruct e; simpl; trivial;
        try (apply IH; intros before after Heq;
             match type of H with
             | forall b a, ?x :: _ = _ -> _ =>
                 destruct (H (x :: before) after) as [b1 [b2 [Hbefore Hq]]];
                 [simpl; now rewrite Heq|]
             end;
             destruct b1 as [|y b1]; simpl in Hbefore; injection Hbefore as Hy Hb';
             [discriminate Hy | subst y; exists b1, b2; split; [exact Hb'|];
                                simpl in Hq; exact Hq]).
      destruct (H [] t eq_refl) as [b1 [b2 [Hbefore _]]].
      destruct b1; discriminate.
Qed.

(** *** The handlers, by the state they start from *)

Section Steps.

Variable E : env.

Lemma updateNodes_no_items (p : XYPosition) (s : state) :
  dragItems s = [] ->
  updateNodes E p s
  = (set_dragItems [] (set_lastPos (Some (x p), Some (y p)) s), []).
Proof.
  intros H. unfold updateNodes, andThen, modify, when, emit. simpl.
  rewrite H. reflexivity.
Qed.

Lemma autoPan_no_items (s : state) :
  dragItems s = [] ->
  dragItems (fst (autoPan E s)) = []
  /\ dragStarted (fst (autoPan E s)) = dragStarted s
  /\ quiet (snd (autoPan E s)) = true.
Proof.
  intros H. unfold autoPan.
  destruct (containerBounds s) as [bounds|]; [|simpl; auto].
  destruct (calcAutoPan E (mousePosition s) bounds) as [xMovement yMovement].
  unfold andThen, when, emit, modify.
  destruct (negb (xMovement =? 0) || negb (yMovement =? 0));
    [destruct (panBy E (xMovement, yMovement));
     [rewrite (updateNodes_no_items _ s H)|]|];
    simpl; auto.
Qed.

(** [startDrag] marks the drag as started, takes the drag items from the
    store and calls [onStart] last, when there are items. *)
Lemma startDrag_outcome (ev : UseDragEvent) (s : state) :
  dragStarted (fst (startDrag E ev s)) = true
  /\ dragItems (fst (startDrag E ev s)) = getDragItems E (pointer ev)
  /\ lastPos (fst (startDrag E ev s))
     = (Some (ptX (pointer ev)), Some (ptY (pointer ev)))
  /\ exists pre,
      forallb (fun e => negb (isDragCallback e)) pre = true
      /\ snd (startDrag E ev s)
         = pre ++ match getDragItems E (pointer ev) with
                  | [] => []
                  | _ :: _ => [OnStart]
                  end.
Proof.
  unfold startDrag, andThen, when, modify, emit. simpl.
  destruct (negb (selectNodesOnDrag E) && negb (multiSelectionActive E)
            && match nodeSelected E with
               | Some selected => negb selected
               | None => false
               end);
    destruct (match nodeSelected E with Some _ => true | None => false end
              && selectable E && selectNodesOnDrag E);
    destruct (getDragItems E (pointer ev)) as [|n items]; simpl;
    repeat split;
    first [ now exists [RemoveSelectedNodes; HandleNodeClick]
          | now exists [RemoveSelectedNodes]
          | now exists [HandleNodeClick]
          | now exists [] ].
Qed.

Lemma startDrag_started (ev : UseDragEvent) (s : state) :
  getDragItems E (pointer ev) <> [] -> started (snd (startDrag E ev s)).
Proof.
  intros Hitems.
  destruct (startDrag_outcome ev s) as [_ [_ [_ [pre [Hpre Heq]]]]].
  rewrite Heq. destruct (getDragItems E (pointer ev)); [contradiction|].
  apply started_app_r.
  - unfold quiet. rewrite forallb_forall in *. intros e He.
    specialize (Hpre e He). now destruct e.
  - split; [reflexivity | now left].
Qed.

Lemma startDrag_quiet (ev : UseDragEvent) (s : state) :
  getDragItems E (pointer ev) = [] ->
  quiet (snd (startDrag E ev s)) = true
  /\ startedWithoutItems (fst (startDrag E ev s)).
Proof.
  intros Hitems.
  destruct (startDrag_outcome ev s) as [Hs [Hi [_ [pre [Hpre Heq]]]]].
  rewrite Hitems in *. split; [|now split].
  rewrite Heq, app_nil_r.
  unfold quiet. rewrite forallb_forall in *. intros e He.
  specialize (Hpre e He). now destruct e.
Qed.

Lemma eventStart_calm (ev : UseDragEvent) (s : state) :
  pending s \/ startedWithoutItems s -> calm (eventStart E ev s).
Proof.
  intros Hs. unfold calm, eventStart.
  destruct (multiTouchMove ev); [right; simpl; auto|].
  unfold andThen, modify.
  destruct (when (fun _ => nodeDragThreshold E =? 0) (startDrag E ev) s)
    as [s1 t1] eqn:Hw.
  cbn [fst snd]. rewrite !app_nil_r.
  unfold when in Hw. destruct (nodeDragThreshold E =? 0).
  - destruct (getDragItems E (pointer ev)) as [|n items] eqn:Hitems.
    + destruct (startDrag_quiet ev s Hitems) as [Hq Hse].
      rewrite Hw in Hq, Hse. right. split; [exact Hq|]. right. exact Hse.
    + left. pose proof (startDrag_started ev s) as Hst.
      rewrite Hw, Hitems in Hst. apply Hst. discriminate.
  - injection Hw as <- <-. right. split; [reflexivity|].
    destruct Hs as [[H1 H2]|[H1 H2]]; [left|right]; split; assumption.
Qed.

Lemma eventDrag_calm (ev : UseDragEvent) (s : state) :
  pending s \/ startedWithoutItems s -> calm (eventDrag E ev s).
Proof.
  intros Hs. unfold calm, eventDrag.
  rewrite andThen_eq.
  set (first := when _ (_ ;; autoPan E)%action).
  assert (Hfirst :
    quiet (snd (first s)) = true
    /\ ((pending s /\ fst (first s) = s)
        \/ startedWithoutItems (fst (first s)))).
  { subst first. unfold when.
    destruct Hs as [[H1 H2]|[H1 H2]].
    - rewrite H1, andb_false_r. simpl. split; [reflexivity|].
      left. repeat split; assumption.
    - destruct (negb (autoPanStarted s) && dragStarted s && autoPanOnNodeDrag E).
      + rewrite andThen_eq. cbn [modify fst snd app].
        destruct (autoPan_no_items (set_autoPanStarted true s) H2) as [Hi [Hd Hq]].
        split; [exact Hq|]. right. split; [now rewrite Hd | exact Hi].
      + simpl. split; [reflexivity|]. right. now split. }
  destruct Hfirst as [Hq1 Hmode].
  generalize dependent (first s). intros [s1 t1]. cbn [fst snd]. intros Hq1 Hmode.
  rewrite andThen_eq.
  set (second := when (fun s0 => negb (dragStarted s0)) _).
  set (third := when _ (_ ;; _ ;; updateNodes E _)%action).
  destruct Hmode as [[[H1 H2] ->]|[H1 H2]].
  - (* pending *)
    assert (Hsecond :
      second s
      = if (nodeDragThreshold E <? travelled (pointer ev) (lastPos s))
        then startDrag E ev s else (s, [])).
    { subst second. unfold when. now rewrite H1. }
    rewrite Hsecond.
    destruct ((nodeDragThreshold E <? travelled (pointer ev) (lastPos s))).
    + destruct (getDragItems E (pointer ev)) as [|n items] eqn:Hitems.
      * destruct (startDrag_quiet ev s Hitems) as [Hq [Hd Hi]].
        right.
        assert (Hthird : third (fst (startDrag E ev s))
                         = (fst (startDrag E ev s), [])).
        { subst third. unfold when. rewrite Hi. simpl.
          now rewrite andb_false_r. }
        rewrite Hthird. cbn [fst snd]. rewrite app_nil_r, quiet_app, Hq1, Hq.
        split; [reflexivity|]. right. now split.
      * left. apply started_app_r; [exact Hq1|]. apply started_app_l.
        apply startDrag_started. rewrite Hitems. discriminate.
    + cbn [fst snd app].
      assert (Hthird : third s = (s, [])).
      { subst third. unfold when. rewrite H1. now rewrite andb_false_r. }
      rewrite Hthird. cbn [fst snd]. rewrite app_nil_r.
      right. split; [exact Hq1|]. left. now split.
  - (* started without items *)
    assert (Hsecond : second s1 = (s1, [])).
    { subst second. unfold when. now rewrite H1. }
    rewrite Hsecond. cbn [fst snd app].
    assert (Hthird : third s1 = (s1, [])).
    { subst third. unfold when. rewrite H2. simpl. now rewrite andb_false_r. }
    rewrite Hthird. cbn [fst snd]. rewrite app_nil_r.
    right. split; [exact Hq1|]. right. now split.
Qed.

(** A release while the drag has not started: nothing but, possibly, the
    click. *)
Lemma eventEnd_pending (ev : UseDragEvent) (s : state) :
  dragStarted s = false ->
  eventEnd E ev s
  = (s, if negb (travelled (pointer ev) (lastPos s) =? 0)
           && (travelled (pointer ev) (lastPos s) <=? nodeDragThreshold E)
           && hasOnClick E
        then [OnClick] else []).
Proof.
  intros H. unfold eventEnd, when, emit. rewrite H. simpl.
  destruct (negb _ && (_ <=? _)); [|reflexivity].
  now destruct (hasOnClick E).
Qed.

Lemma eventEnd_calm (ev : UseDragEvent) (s : state) :
  pending s \/ startedWithoutItems s -> calm (eventEnd E ev s).
Proof.
  intros [[H1 H2]|[H1 H2]]; unfold calm.
  - rewrite (eventEnd_pending ev s H1). cbn [fst snd]. right. split.
    + now destruct (_ && hasOnClick E).
    + left. now split.
  - unfold eventEnd, andThen, when, modify, emit. rewrite H1. simpl.
    rewrite H2. simpl. right. split; [reflexivity|]. left. now split.
Qed.

Lemma frame_calm (s : state) :
  pending s \/ startedWithoutItems s -> calm (frame E s).
Proof.
  intros Hs. unfold calm, frame, when.
  destruct (autoPanScheduled s) eqn:Hsched.
  - destruct Hs as [[H1 H2]|[H1 H2]]; [congruence|].
    rewrite andThen_eq. cbn [modify fst snd app].
    destruct (autoPan_no_items (set_autoPanScheduled false s) H2) as [Hi [Hd Hq]].
    right. split; [exact Hq|]. right. split; [now rewrite Hd | exact Hi].
  - right. split; [reflexivity|]. exact Hs.
Qed.

(** *** The animation loop runs only while the drag is started *)

Lemma updateNodes_flags (p : XYPosition) (s : state) :
  dragStarted (fst (updateNodes E p s)) = dragStarted s
  /\ autoPanScheduled (fst (updateNodes E p s)) = autoPanScheduled s.
Proof.
  unfold updateNodes, andThen, modify, when, emit. simpl.
  destruct (existsb _ _); simpl; [|auto].
  destruct (dragEvent s); simpl; auto.
Qed.

Lemma autoPan_started (s : state) :
  dragStarted (fst (autoPan E s)) = dragStarted s.
Proof.
  unfold autoPan.
  destruct (containerBounds s) as [bounds|]; [|reflexivity].
  destruct (calcAutoPan E (mousePosition s) bounds) as [xMovement yMovement].
  unfold andThen, when, emit, modify.
  destruct (negb (xMovement =? 0) || negb (yMovement =? 0));
    [destruct (panBy E (xMovement, yMovement))|]; simpl; trivial.
  match goal with
  | |- context [updateNodes E ?p s] =>
      destruct (updateNodes_flags p s) as [Hd _];
      destruct (updateNodes E p s) as [s1 t1]
  end.
  simpl in *. exact Hd.
Qed.

Lemma eventStart_frames (ev : UseDragEvent) (s : state) :
  framesOnlyWhileStarted s -> framesOnlyWhileStarted (fst (eventStart E ev s)).
Proof.
  intros Hs. unfold eventStart.
  destruct (multiTouchMove ev); [exact Hs|].
  unfold andThen, modify, when.
  destruct (nodeDragThreshold E =? 0).
  - destruct (startDrag_outcome ev s) as [Hd _].
    destruct (startDrag E ev s) as [s1 t1]. simpl in *.
    intros _. exact Hd.
  - exact Hs.
Qed.

Lemma eventDrag_frames (ev : UseDragEvent) (s : state) :
  framesOnlyWhileStarted s -> framesOnlyWhileStarted (fst (eventDrag E ev s)).
Proof.
  intros Hs. unfold eventDrag. rewrite andThen_eq. cbn [fst].
  set (first := when _ (_ ;; autoPan E)%action).
  assert (H1 : framesOnlyWhileStarted (fst (first s))).
  { subst first. unfold when.
    destruct (negb (autoPanStarted s) && dragStarted s && autoPanOnNodeDrag E)
      eqn:Hc; [|exact Hs].
    rewrite andThen_eq. cbn [modify fst]. intros _.
    rewrite autoPan_started. simpl.
    apply andb_true_iff in Hc. destruct Hc as [Hc _].
    apply andb_true_iff in Hc. now destruct Hc. }
  generalize dependent (first s). intros [s1 t1]. cbn [fst]. intros H1.
  rewrite andThen_eq. cbn [fst].
  set (second := when (fun s0 => negb (dragStarted s0)) _).
  assert (H2 : framesOnlyWhileStarted (fst (second s1))).
  { subst second. unfold when.
    destruct (negb (dragStarted s1)); [|exact H1].
    destruct (_ <? _); [|exact H1].
    intros _. now destruct (startDrag_outcome ev s1) as [Hd _]. }
  generalize dependent (second s1). intros [s2 t2]. cbn [fst]. intros H2.
  unfold when.
  destruct (_ && dragStarted s2); [|exact H2].
  unfold andThen, modify. cbn [fst snd].
  match goal with
  | |- context [updateNodes E ?p ?s0] =>
      destruct (updateNodes_flags p s0) as [Hd Hf];
      destruct (updateNodes E p s0) as [s3 t3]
  end.
  simpl in *. unfold framesOnlyWhileStarted. rewrite Hd, Hf. exact H2.
Qed.

Lemma eventEnd_frames (ev : UseDragEvent) (s : state) :
  framesOnlyWhileStarted s -> framesOnlyWhileStarted (fst (eventEnd E ev s)).
Proof.
  intros Hs. destruct (dragStarted s) eqn:Hd.
  - unfold eventEnd, andThen, when, modify, emit. rewrite Hd. simpl.
    destruct (negb (Nat.eqb (List.length (dragItems s)) 0));
      simpl; intros H; discriminate H.
  - now rewrite (eventEnd_pending ev s Hd).
Qed.

Lemma frame_frames (s : state) :
  framesOnlyWhileStarted s -> framesOnlyWhileStarted (fst (frame E s)).
Proof.
  intros Hs. unfold frame, when.
  destruct (autoPanScheduled s) eqn:Hf; [|exact Hs].
  rewrite andThen_eq. cbn [modify fst]. intros _.
  rewrite autoPan_started. simpl. now apply Hs.
Qed.

(** *** A gesture that stays within the threshold *)

Lemma eventStart_pending (ev : UseDragEvent) (s : state) :
  multiTouchMove ev = false -> (nodeDragThreshold E =? 0) = false ->
  exists s',
    eventStart E ev s = (s', [])
    /\ dragStarted s' = dragStarted s
    /\ lastPos s' = (Some (ptX (pointer ev)), Some (ptY (pointer ev))).
Proof.
  intros Hm Ht. unfold eventStart, andThen, when, modify. rewrite Hm.
  rewrite Ht. simpl. eexists. repeat split.
Qed.

Lemma eventDrag_within (ev : UseDragEvent) (s : state) :
  dragStarted s = false ->
  (nodeDragThreshold E <? travelled (pointer ev) (lastPos s)) = false ->
  eventDrag E ev s = (s, []).
Proof.
  intros Hd Hw. unfold eventDrag. rewrite andThen_eq.
  set (first := when _ (_ ;; autoPan E)%action).
  assert (Hfirst : first s = (s, [])).
  { subst first. unfold when. now rewrite Hd, andb_false_r. }
  rewrite Hfirst. cbn [fst snd app]. rewrite andThen_eq.
  set (second := when (fun s0 => negb (dragStarted s0)) _).
  assert (Hsecond : second s = (s, [])).
  { subst second. unfold when. now rewrite Hd, Hw. }
  rewrite Hsecond. cbn [fst snd app].
  unfold when. now rewrite Hd, andb_false_r.
Qed.

Lemma moves_within (evs : list UseDragEvent) (s : state) :
  dragStarted s = false ->
  (forall ev, In ev evs ->
              (nodeDragThreshold E <? travelled (pointer ev) (lastPos s))
              = false) ->
  forall rest, run (map (Move E) evs ++ rest) s = run rest s.
Proof.
  intros Hd Hw rest. induction evs as [|ev evs IH]; [reflexivity|].
  simpl. unfold andThen at 1. simpl handle.
  rewrite (eventDrag_within ev s Hd) by (apply Hw; now left).
  rewrite IH by (intros ev' Hin; apply Hw; now right).
  now destruct (run rest s).
Qed.

(** The first move beyond the threshold: the store actions of
    [startDrag], then [onStart], then the rest. *)
Lemma eventDrag_beyond (ev : UseDragEvent) (s : state) :
  dragStarted s = false ->
  (nodeDragThreshold E <? travelled (pointer ev) (lastPos s)) = true ->
  getDragItems E (pointer ev) <> [] ->
  dragStarted (fst (eventDrag E ev s)) = true
  /\ exists pre post,
      snd (eventDrag E ev s) = pre ++ OnStart :: post
      /\ forallb (fun e => negb (isDragCallback e)) pre = true.
Proof.
  intros Hd Hb Hitems. unfold eventDrag. rewrite andThen_eq.
  set (first := when _ (_ ;; autoPan E)%action).
  assert (Hfirst : first s = (s, [])).
  { subst first. unfold when. now rewrite Hd, andb_false_r. }
  rewrite Hfirst. cbn [fst snd app]. rewrite andThen_eq.
  set (second := when (fun s0 => negb (dragStarted s0)) _).
  assert (Hsecond : second s = startDrag E ev s).
  { subst second. unfold when. now rewrite Hd, Hb. }
  rewrite Hsecond. cbn [fst snd].
  destruct (startDrag_outcome ev s) as [Hs [_ [_ [pre [Hpre Heq]]]]].
  split.
  - generalize dependent (startDrag E ev s). intros [s1 t1]. cbn [fst snd].
    intros _ Hs1 _. unfold when.
    destruct (_ && dragStarted s1); [|exact Hs1].
    unfold andThen, modify. cbn [fst snd].
    match goal with
    | |- context [updateNodes E ?p ?s0] =>
        destruct (updateNodes_flags p s0) as [Hd' _];
        destruct (updateNodes E p s0) as [s3 t3]
    end.
    simpl in *. now rewrite Hd'.
  - rewrite Heq. destruct (getDragItems E (pointer ev)); [contradiction|].
    eexists pre, _. split; [|exact Hpre].
    rewrite <- app_assoc. reflexivity.
Qed.

End Steps.

Lemma handle_calm (i : input) (s : state) :
  pending s \/ startedWithoutItems s -> calm (handle i s).
Proof.
  destruct i; simpl.
  - apply eventStart_calm.
  - apply eventDrag_calm.
  - apply eventEnd_calm.
  - apply frame_calm.
Qed.

(** From a state in which no [OnDrag] can be due, whatever the host
    delivers, [onStart] is called before the first [onDrag]. *)
Lemma run_startBeforeDrag (inputs : list input) (s : state) :
  pending s \/ startedWithoutItems s ->
  startBeforeDrag (trace inputs s) = true.
Proof.
  unfold trace. revert s. induction inputs as [|i rest IH]; intros s Hs.
  - reflexivity.
  - simpl run. rewrite andThen_eq. cbn [snd].
    destruct (handle_calm i Hs) as [Hst|[Hq Hmode]].
    + apply (started_app_l _ Hst).
    + rewrite (startBeforeDrag_app_quiet _ _ Hq). apply IH. exact Hmode.
Qed.

Lemma run_frames (inputs : list input) (s : state) :
  framesOnlyWhileStarted s -> framesOnlyWhileStarted (fst (run inputs s)).
Proof.
  revert s. induction inputs as [|i rest IH]; intros s Hs; [exact Hs|].
  simpl run. rewrite andThen_eq. cbn [fst]. apply IH.
  destruct i; simpl handle.
  - now apply eventStart_frames.
  - now apply eventDrag_frames.
  - now apply eventEnd_frames.
  - now apply frame_frames.
Qed.

(** Whatever happened since the composable was set up, a state in which the
    drag is not started is pending. *)
Lemma reachable_pending (inputs : list input) :
  dragStarted (fst (run inputs initial)) = false ->
  pending (fst (run inputs initial)).
Proof.
  intros Hd. split; [exact Hd|].
  assert (Hinv : framesOnlyWhileStarted (fst (run inputs initial)))
    by (apply run_frames; intros H; discriminate H).
  destruct (autoPanScheduled (fst (run inputs initial))) eqn:Hf; [|reflexivity].
  rewrite (Hinv Hf) in Hd. discriminate.
Qed.

(** Pointer down, moves that stay within the threshold, release. *)
Lemma gesture_within (E : env) (s : state) (ev0 : UseDragEvent)
  (evs : list UseDragEvent) (ev1 : UseDragEvent) :
  dragStarted s = false -> (nodeDragThreshold E =? 0) = false ->
  multiTouchMove ev0 = false ->
  let last := (Some (ptX (pointer ev0)), Some (ptY (pointer ev0))) in
  (forall ev, In ev evs ->
              (nodeDragThreshold E <? travelled (pointer ev) last) = false) ->
  trace (Start E ev0 :: map (Move E) evs ++ [End_ E ev1]) s
  = if negb (travelled (pointer ev1) last =? 0)
       && (travelled (pointer ev1) last <=? nodeDragThreshold E)
       && hasOnClick E
    then [OnClick] else [].
Proof.
  intros Hd Ht Hm last Hw. unfold trace. simpl run. rewrite andThen_eq.
  simpl handle.
  destruct (eventStart_pending E ev0 s Hm Ht) as [s0 [Hstart [Hd0 Hlast]]].
  rewrite Hstart. cbn [fst snd app]. rewrite Hd in Hd0.
  rewrite (@moves_within E evs s0 Hd0)
    by (intros ev Hin; rewrite Hlast; now apply Hw).
  simpl run. rewrite andThen_eq. simpl handle.
  rewrite (eventEnd_pending E ev1 s0 Hd0). cbn [fst snd skip].
  rewrite app_nil_r, Hlast. reflexivity.
Qed.

(** C7 (as amended).  The distance is the one the handlers compute: the
    binary64 value of [Math.sqrt(x * x + y * y)] for the offset of the
    snapped pointer position from the raw pointer-down position.  With a
    positive threshold, a gesture on which [distance > threshold] is false
    at every move and [distance <= threshold] is true at the release makes
    no call at all, except [onClick] when it is supplied and the distance at
    the release is not zero.  From a pending state, whatever follows,
    [onStart] is called before the first [onDrag]; and the first move with
    [distance > threshold] calls [onStart], after store actions only, when
    there are nodes to drag. *)
Theorem drag_threshold :
  let distance (p : PointerPosition) (lastX lastY : float) : float :=
    Math.sqrt ((xSnapped p - lastX) * (xSnapped p - lastX)
               + (ySnapped p - lastY) * (ySnapped p - lastY)) in
  (forall (E : env) (s : state) (ev0 : UseDragEvent) (evs : list UseDragEvent)
          (ev1 : UseDragEvent),
      dragStarted s = false -> (0 <? nodeDragThreshold E) = true ->
      multiTouchMove ev0 = false ->
      let x0 := ptX (pointer ev0) in
      let y0 := ptY (pointer ev0) in
      (forall ev, In ev evs ->
                  (nodeDragThreshold E <? distance (pointer ev) x0 y0) = false) ->
      (distance (pointer ev1) x0 y0 <=? nodeDragThreshold E) = true ->
      trace (Start E ev0 :: map (Move E) evs ++ [End_ E ev1]) s
      = if negb (distance (pointer ev1) x0 y0 =? 0) && hasOnClick E
        then [OnClick] else [])
  /\ (forall (inputs : list input) (s : state),
        pending s ->
        forall before after,
          trace inputs s = before ++ OnDrag :: after -> In OnStart before)
  /\ (forall (E : env) (ev : UseDragEvent) (s : state),
        dragStarted s = false ->
        (nodeDragThreshold E
         <? distance (pointer ev) (orZero (fst (lastPos s))) (orZero (snd (lastPos s))))
        = true ->
        getDragItems E (pointer ev) <> [] ->
        exists pre post,
          trace [Move E ev] s = pre ++ OnStart :: post
          /\ forallb (fun e => negb (isDragCallback e)) pre = true).
Proof.
  intros distance.
  assert (Hdist : forall p last,
             travelled p last = distance p (orZero (fst last)) (orZero (snd last)))
    by reflexivity.
  split; [|split].
  - intros E s ev0 evs ev1 Hd Ht Hm x0 y0 Hw Hle.
    pose proof (positive_nonzero Ht) as Hnz.
    rewrite (@gesture_within E s ev0 evs ev1 Hd Hnz Hm)
      by (intros ev Hin; rewrite Hdist; now apply Hw).
    rewrite Hdist. cbn [fst snd orZero]. fold x0 y0.
    rewrite Hle, andb_true_r. reflexivity.
  - intros inputs s Hs before after Heq.
    assert (Hb : startBeforeDrag (trace inputs s) = true)
      by (apply run_startBeforeDrag; now left).
    destruct (proj1 (startBeforeDrag_spec _) Hb before after Heq)
      as [b1 [b2 [-> _]]].
    apply in_elt.
  - intros E ev s Hd Hb Hitems. rewrite <- Hdist in Hb.
    destruct (eventDrag_beyond E ev s Hd Hb Hitems) as [_ [pre [post [Heq Hpre]]]].
    exists pre, post. split; [|exact Hpre].
    unfold trace. simpl run. rewrite andThen_eq. simpl handle.
    cbn [snd skip]. now rewrite app_nil_r.
Qed.

(** The scenario of the specification: with the threshold [5], a pointer
    that moves [3] units and is released gives the click and nothing else;
    a pointer that moves [6] units gives [onStart]. *)
Lemma drag_threshold_witness :
  let E := store 5 in
  trace [Start E (mouseAt 0 0); Move E (mouseAt 3 0); End_ E (mouseAt 3 0)] initial
  = [OnClick]
  /\ exists pre post,
      trace [Move E (mouseAt 6 0)] (fst (run [Start E (mouseAt 0 0)] initial))
      = pre ++ OnStart :: post
      /\ forallb (fun e => negb (isDragCallback e)) pre = true.
Proof.
  intros E. destruct drag_threshold as [Hclick [_ Hstart]]. split.
  - apply (Hclick E initial (mouseAt 0 0) [mouseAt 3 0] (mouseAt 3 0)).
    + reflexivity.
    + reflexivity.
    + reflexivity.
    + intros ev [<-|[]]. reflexivity.
    + reflexivity.
  - apply Hstart.
    + reflexivity.
    + reflexivity.
    + discriminate.
Defined.

(** The second scenario in full: pointer down, a move of [6] units, a move
    to [8] units, release. *)
Example drag_beyond_threshold :
  let E := store 5 in
  map (fun e => match e with UpdateNodePositions _ c d => UpdateNodePositions [] c d
                           | _ => e end)
      (trace [Start E (mouseAt 0 0); Move E (mouseAt 6 0); Move E (mouseAt 8 0);
              End_ E (mouseAt 8 0)] initial)
  = [HandleNodeClick; OnStart; UpdateNodePositions [] true true; OnDrag;
     UpdateNodePositions [] false false; OnStop].
Proof. vm_compute. reflexivity. Qed.

(** The distance is compared as computed: [Math.sqrt(13)] is the binary64
    number [3.605551275463989], so with that threshold a pointer that moves
    to [(2, 3)] and is released there is within the threshold and gives the
    click. *)
Example rounded_distance_within_threshold :
  let E := store 3.605551275463989 in
  (3.605551275463989 <? Math.sqrt ((2 - 0) * (2 - 0) + (3 - 0) * (3 - 0))) = false
  /\ trace [Start E (mouseAt 0 0); Move E (mouseAt 2 3); End_ E (mouseAt 2 3)] initial
     = [OnClick].
Proof. vm_compute. split; reflexivity. Qed.

(** With snapping, the snapped position of a pointer that has not moved can
    be away from the raw pointer-down position: the release then gives the
    click. *)
Example snapped_release_in_place_clicks :
  let E := store 5 in
  let ev := {| pointer := {| ptX := 1; ptY := 1; xSnapped := 0; ySnapped := 0 |};
               clientX := 1; clientY := 1; multiTouchMove := false |} in
  trace [Start E ev; End_ E ev] initial = [OnClick].
Proof. vm_compute. reflexivity. Qed.

(** C7 (as stated) fails on a release in place: the gesture is pending, the
    distance [0] is within the threshold [5], a click callback is supplied,
    and no call is made. *)
Lemma release_in_place_is_silent :
  let E := store 5 in
  let s := fst (run [Start E (mouseAt 0 0)] initial) in
  ~ (dragStarted s = false ->
     (Math.sqrt ((0 - 0) * (0 - 0) + (0 - 0) * (0 - 0)) <=? nodeDragThreshold E)
     = true ->
     In OnClick (trace [Start E (mouseAt 0 0); End_ E (mouseAt 0 0)] initial)).
Proof.
  intros E s H.
  assert (Hin : In OnClick
                  (trace [Start E (mouseAt 0 0); End_ E (mouseAt 0 0)] initial))
    by (apply H; reflexivity).
  vm_compute in Hin. exact Hin.
Qed.

End DragProps.

(** ** Viewport mapping, clamping and bounding boxes *)

Module ViewportProps.

Import Geometry Viewport GeometryProps.
Local Open Scope Q_scope.

(** *** The order of the numbers *)

Lemma eqb_Fin (a b : Q) : eqb (Fin a) (Fin b) = true <-> a == b.
Proof.
  unfold eqb. simpl. rewrite Qeq_alt.
  destruct (a ?= b); split; congruence.
Qed.

Lemma eqb_Fin_true (a b : Q) : a == b -> eqb (Fin a) (Fin b) = true.
Proof. apply eqb_Fin. Qed.

Lemma leb_refl (a : number) : isNaN a = false -> leb a a = true.
Proof.
  destruct a as [| |q|]; simpl; try discriminate; trivial.
  intros _. apply leb_Fin. apply Qle_refl.
Qed.

Lemma leb_defined (a b : number) :
  leb a b = true -> isNaN a = false /\ isNaN b = false.
Proof. destruct a, b; simpl; try discriminate; auto. Qed.

Lemma leb_trans (a b c : number) :
  leb a b = true -> leb b c = true -> leb a c = true.
Proof.
  destruct a as [| |p|], b as [| |q|], c as [| |r|];
    try (simpl; intros; first [reflexivity | discriminate]).
  rewrite !leb_Fin. apply Qle_trans.
Qed.

Lemma leb_total (a b : number) :
  isNaN a = false -> isNaN b = false -> leb a b = true \/ leb b a = true.
Proof.
  destruct a as [| |p|], b as [| |q|];
    try (simpl; intros; first [discriminate | now left | now right]).
  intros _ _. rewrite !leb_Fin.
  destruct (Qlt_le_dec p q); [left; lra | now right].
Qed.

(** [a <= b] does not tell numerically equal bounds apart. *)
Lemma leb_eqb_r (a b c : number) : eqb b c = true -> leb a b = leb a c.
Proof.
  destruct a as [| |p|], b as [| |q|], c as [| |r|];
    try (simpl; intros; first [reflexivity | discriminate]).
  rewrite eqb_Fin. intros H. apply eq_true_iff_eq. rewrite !leb_Fin, H. tauto.
Qed.

Lemma leb_eqb_l (a b c : number) : eqb a b = true -> leb a c = leb b c.
Proof.
  destruct a as [| |p|], b as [| |q|], c as [| |r|];
    try (simpl; intros; first [reflexivity | discriminate]).
  rewrite eqb_Fin. intros H. apply eq_true_iff_eq. rewrite !leb_Fin, H. tauto.
Qed.

Lemma max_cases (a b : number) :
  isNaN a = false -> isNaN b = false ->
  (leb a b = true /\ max a b = b) \/ (leb b a = true /\ max a b = a).
Proof.
  intros Ha Hb. unfold max, leb. rewrite Ha, Hb. simpl.
  destruct a as [| |p|], b as [| |q|]; try discriminate; simpl; auto.
  destruct (p ?= q) eqn:E; simpl.
  - right. split; [|reflexivity].
    now rewrite <- Qcompare_antisym, E.
  - left. now split.
  - right. split; [|reflexivity].
    now rewrite <- Qcompare_antisym, E.
Qed.

Lemma min_cases (a b : number) :
  isNaN a = false -> isNaN b = false ->
  (leb a b = true /\ min a b = a) \/ (leb b a = true /\ min a b = b).
Proof.
  intros Ha Hb. unfold min, leb. rewrite Ha, Hb. simpl.
  destruct a as [| |p|], b as [| |q|]; try discriminate; simpl; auto.
  destruct (p ?= q) eqn:E; simpl.
  - left. now split.
  - left. now split.
  - right. split; [|reflexivity].
    now rewrite <- Qcompare_antisym, E.
Qed.

Lemma max_defined (a b : number) :
  isNaN a = false -> isNaN b = false -> isNaN (max a b) = false.
Proof.
  intros Ha Hb. destruct (max_cases a b Ha Hb) as [[_ ->]|[_ ->]]; assumption.
Qed.

Lemma min_defined (a b : number) :
  isNaN a = false -> isNaN b = false -> isNaN (min a b) = false.
Proof.
  intros Ha Hb. destruct (min_cases a b Ha Hb) as [[_ ->]|[_ ->]]; assumption.
Qed.

Lemma max_upper (a b : number) :
  isNaN a = false -> isNaN b = false ->
  leb a (max a b) = true /\ leb b (max a b) = true.
Proof.
  intros Ha Hb. destruct (max_cases a b Ha Hb) as [[H ->]|[H ->]];
    split; trivial; now apply leb_refl.
Qed.

Lemma min_lower (a b : number) :
  isNaN a = false -> isNaN b = false ->
  leb (min a b) a = true /\ leb (min a b) b = true.
Proof.
  intros Ha Hb. destruct (min_cases a b Ha Hb) as [[H ->]|[H ->]];
    split; trivial; now apply leb_refl.
Qed.

Lemma max_least (a b c : number) :
  leb a c = true -> leb b c = true -> leb (max a b) c = true.
Proof.
  intros Ha Hb.
  destruct (leb_defined _ _ Ha) as [Da _], (leb_defined _ _ Hb) as [Db _].
  destruct (max_cases a b Da Db) as [[_ ->]|[_ ->]]; assumption.
Qed.

Lemma min_greatest (a b c : number) :
  leb c a = true -> leb c b = true -> leb c (min a b) = true.
Proof.
  intros Ha Hb.
  destruct (leb_defined _ _ Ha) as [_ Da], (leb_defined _ _ Hb) as [_ Db].
  destruct (min_cases a b Da Db) as [[_ ->]|[_ ->]]; assumption.
Qed.

Lemma leb_antisym (a b : number) :
  leb a b = true -> leb b a = true -> eqb a b = true.
Proof.
  destruct a as [| |p|], b as [| |q|];
    try (simpl; intros; first [reflexivity | discriminate]).
  rewrite !leb_Fin, eqb_Fin. intros. lra.
Qed.

(** *** [clamp] and [clampPosition] *)

Lemma max_fixed (v lo : number) : leb lo v = true -> max v lo = v.
Proof.
  destruct v as [| |p|], lo as [| |q|];
    try (simpl; intros; first [reflexivity | discriminate]).
  rewrite leb_Fin, Qle_alt, <- Qcompare_antisym. unfold max. simpl.
  destruct (p ?= q); simpl; congruence.
Qed.

Lemma min_fixed (v hi : number) : leb v hi = true -> min v hi = v.
Proof.
  destruct v as [| |p|], hi as [| |q|];
    try (simpl; intros; first [reflexivity | discriminate]).
  rewrite leb_Fin, Qle_alt. unfold min. simpl.
  destruct (p ?= q); simpl; congruence.
Qed.

(** X1.  With [lo <= hi] and a value that is a number, [clamp] returns a
    value between [lo] and [hi], and the value itself when it already lies
    between them; clamping twice is clamping once. *)
Theorem clamp_within (v lo hi : number) :
  leb lo hi = true -> isNaN v = false ->
  leb lo (clamp v lo hi) = true
  /\ leb (clamp v lo hi) hi = true
  /\ (leb lo v = true -> leb v hi = true -> clamp v lo hi = v)
  /\ clamp (clamp v lo hi) lo hi = clamp v lo hi.
Proof.
  intros Hlh Hv. destruct (leb_defined _ _ Hlh) as [Dlo Dhi].
  assert (Hfix : forall w, leb lo w = true -> leb w hi = true -> clamp w lo hi = w).
  { intros w Hl Hh. unfold clamp. now rewrite (max_fixed _ _ Hl), (min_fixed _ _ Hh). }
  assert (Hlow : leb lo (clamp v lo hi) = true).
  { unfold clamp. apply min_greatest; [|exact Hlh].
    now apply (max_upper v lo). }
  assert (Hhigh : leb (clamp v lo hi) hi = true).
  { unfold clamp. apply (min_lower (max v lo) hi); [|exact Dhi].
    now apply max_defined. }
  split; [exact Hlow|]. split; [exact Hhigh|].
  split; [apply Hfix | apply Hfix; assumption].
Qed.

Lemma clamp_within_witness :
  leb (Fin 0) (Fin 1) = true /\ isNaN (Fin (3 # 2)) = false
  /\ clamp (Fin (3 # 2)) (Fin 0) (Fin 1) = Fin 1
  /\ clamp (Fin (1 # 3)) (Fin 0) (Fin 1) = Fin (1 # 3).
Proof.
  split; [reflexivity|]. split; [reflexivity|]. split; [reflexivity|].
  apply (proj1 (proj2 (proj2 (@clamp_within (Fin (1 # 3)) (Fin 0) (Fin 1)
                                 eq_refl eq_refl)))); reflexivity.
Defined.

(** X2.  With inverted bounds, [hi < lo], [clamp] returns [hi] whatever the
    value is. *)
Theorem clamp_inverted (v lo hi : number) :
  ltb hi lo = true -> isNaN v = false -> clamp v lo hi = hi.
Proof.
  intros Hhl Hv.
  assert (Dlo : isNaN lo = false) by (destruct hi, lo; simpl in *; try discriminate; trivial).
  assert (Hlt : ltb hi (max v lo) = true).
  { destruct (max_cases v lo Hv Dlo) as [[_ ->]|[Hlv ->]]; [exact Hhl|].
    destruct hi as [| |h|], lo as [| |l|], v as [| |w|];
      try (simpl in *; first [reflexivity | discriminate]).
    rewrite ltb_Fin in *. rewrite leb_Fin in Hlv. lra. }
  unfold clamp. remember (max v lo) as m eqn:Hm. clear Hm.
  destruct hi as [| |h|], m as [| |w|];
    try (simpl in *; first [reflexivity | discriminate]).
  unfold min. simpl. rewrite ltb_Fin, Qlt_alt, <- Qcompare_antisym in Hlt.
  destruct (w ?= h); simpl in *; congruence.
Qed.

Lemma clamp_inverted_witness :
  ltb (Fin 1) (Fin 5) = true /\ clamp (Fin 3) (Fin 5) (Fin 1) = Fin 1.
Proof.
  split; [reflexivity|].
  apply (@clamp_inverted (Fin 3) (Fin 5) (Fin 1)); reflexivity.
Defined.

(** X3.  For an extent whose corners are ordered, the clamped position lies
    in the extent and clamping it again changes nothing. *)
Theorem clampPosition_within (p : XYPosition) (minX minY maxX maxY : number) :
  leb minX maxX = true -> leb minY maxY = true ->
  isNaN (x p) = false -> isNaN (y p) = false ->
  let extent := ((minX, minY), (maxX, maxY)) in
  let q := clampPosition p extent in
  leb minX (x q) = true /\ leb (x q) maxX = true
  /\ leb minY (y q) = true /\ leb (y q) maxY = true
  /\ clampPosition q extent = q.
Proof.
  intros Hx Hy Dx Dy extent q. subst q extent. unfold clampPosition. simpl.
  destruct (clamp_within (x p) minX maxX Hx Dx) as [H1 [H2 [_ H3]]].
  destruct (clamp_within (y p) minY maxY Hy Dy) as [H4 [H5 [_ H6]]].
  repeat split; trivial. now rewrite H3, H6.
Qed.

Lemma clampPosition_within_witness :
  let p := {| x := Fin (-5); y := Fin 250 |} in
  leb (Fin 0) (Fin 100) = true
  /\ clampPosition p ((Fin 0, Fin 0), (Fin 100, Fin 200))
     = {| x := Fin 0; y := Fin 200 |}
  /\ leb (Fin 0) (x (clampPosition p ((Fin 0, Fin 0), (Fin 100, Fin 200)))) = true.
Proof.
  intros p. split; [reflexivity|]. split; [reflexivity|].
  apply (@clampPosition_within p (Fin 0) (Fin 0) (Fin 100) (Fin 200));
    reflexivity.
Defined.

(** *** Rects and boxes *)

Lemma contains_refl (b : Box) : definedBox b = true -> contains b b = true.
Proof.
  unfold definedBox, contains. rewrite !andb_true_iff, !negb_true_iff.
  intros [[[H1 H2] H3] H4]. repeat split; now apply leb_refl.
Qed.

Lemma contains_trans (a b c : Box) :
  contains a b = true -> contains b c = true -> contains a c = true.
Proof.
  unfold contains. rewrite !andb_true_iff.
  intros [[[H1 H2] H3] H4] [[[K1 K2] K3] K4].
  repeat split; eapply leb_trans; eassumption.
Qed.

Lemma contains_defined (a b : Box) :
  contains a b = true -> definedBox a = true /\ definedBox b = true.
Proof.
  unfold contains, definedBox. rewrite !andb_true_iff, !negb_true_iff.
  intros [[[H1 H2] H3] H4].
  destruct (leb_defined _ _ H1), (leb_defined _ _ H2),
    (leb_defined _ _ H3), (leb_defined _ _ H4).
  repeat split; assumption.
Qed.

Lemma getBoundsOfBoxes_defined (a b : Box) :
  definedBox a = true -> definedBox b = true ->
  definedBox (getBoundsOfBoxes a b) = true.
Proof.
  unfold definedBox, getBoundsOfBoxes. simpl.
  rewrite !andb_true_iff, !negb_true_iff.
  intros [[[A1 A2] A3] A4] [[[B1 B2] B3] B4].
  repeat split; first [now apply min_defined | now apply max_defined].
Qed.

Lemma union_upper (a b : Box) :
  definedBox a = true -> definedBox b = true ->
  contains (getBoundsOfBoxes a b) a = true
  /\ contains (getBoundsOfBoxes a b) b = true.
Proof.
  unfold definedBox, contains, getBoundsOfBoxes. simpl.
  rewrite !andb_true_iff, !negb_true_iff.
  intros [[[A1 A2] A3] A4] [[[B1 B2] B3] B4].
  destruct (min_lower _ _ A1 B1), (min_lower _ _ A2 B2),
    (max_upper _ _ A3 B3), (max_upper _ _ A4 B4).
  repeat split; assumption.
Qed.

Lemma union_least (a b c : Box) :
  contains c a = true -> contains c b = true ->
  contains c (getBoundsOfBoxes a b) = true.
Proof.
  unfold contains, getBoundsOfBoxes. simpl. rewrite !andb_true_iff.
  intros [[[H1 H2] H3] H4] [[[K1 K2] K3] K4].
  repeat split; first [now apply min_greatest | now apply max_least].
Qed.

Lemma contains_antisym (a b : Box) :
  contains a b = true -> contains b a = true -> sameBox a b = true.
Proof.
  unfold contains, sameBox. rewrite !andb_true_iff.
  intros [[[H1 H2] H3] H4] [[[K1 K2] K3] K4].
  repeat split; now apply leb_antisym.
Qed.

(** X5.  The union of two boxes without [NaN] contains both, is contained
    in every box that contains both, and does not depend on the order of
    the two. *)
Theorem getBoundsOfBoxes_least (a b : Box) :
  definedBox a = true -> definedBox b = true ->
  contains (getBoundsOfBoxes a b) a = true
  /\ contains (getBoundsOfBoxes a b) b = true
  /\ (forall c, contains c a = true -> contains c b = true ->
                contains c (getBoundsOfBoxes a b) = true)
  /\ sameBox (getBoundsOfBoxes a b) (getBoundsOfBoxes b a) = true.
Proof.
  intros Da Db.
  destruct (union_upper a b Da Db) as [Ha Hb].
  destruct (union_upper b a Db Da) as [Hb' Ha'].
  split; [exact Ha|]. split; [exact Hb|].
  split; [intros c; apply union_least|].
  apply contains_antisym; now apply union_least.
Qed.

Lemma getBoundsOfBoxes_least_witness :
  let a := {| bx := Fin 0; by_ := Fin 0; x2 := Fin 10; y2 := Fin 10 |} in
  let b := {| bx := Fin 5; by_ := Fin (-5); x2 := Fin 20; y2 := Fin 3 |} in
  definedBox a = true /\ definedBox b = true
  /\ contains (getBoundsOfBoxes a b) a = true
  /\ getBoundsOfBoxes a b
     = {| bx := Fin 0; by_ := Fin (-5); x2 := Fin 20; y2 := Fin 10 |}.
Proof.
  intros a b. split; [reflexivity|]. split; [reflexivity|].
  split; [|reflexivity].
  apply (@getBoundsOfBoxes_least a b); reflexivity.
Defined.

(** *** Screen and graph coordinates *)



Lemma round_near (q : Q) :
  let k := inject_Z (Qfloor (q + (1 # 2))) in
  q - (1 # 2) <= k /\ k <= q + (1 # 2).
Proof.
  intros k. subst k.
  pose proof (Qfloor_le (q + (1 # 2))) as Hle.
  pose proof (Qlt_floor (q + (1 # 2))) as Hlt.
  rewrite inject_Z_plus in Hlt. change (inject_Z 1) with 1 in Hlt.
  split; lra.
Qed.



(** *** Nodes inside a rect: the two modes *)

Lemma ltb_leb_trans (a b c : number) :
  ltb a b = true -> leb b c = true -> ltb a c = true.
Proof.
  destruct a as [| |p|], b as [| |q|], c as [| |r|];
    try (simpl; intros; first [reflexivity | discriminate]).
  rewrite !ltb_Fin, leb_Fin. intros. lra.
Qed.

Lemma insideBox_selectable (rBox : Box) (partially : bool) (n : GraphNode) :
  insideBox rBox partially n = true -> selectable n <> Some false.
Proof. unfold insideBox. destruct (selectable n) as [[|]|]; congruence. Qed.



Lemma Qmax_zero_nonpos (q : Q) : q <= 0 -> Qmax 0 q == 0.
Proof. intros H. apply Q.max_l. exact H. Qed.

Lemma Qmax_zero_nonneg (q : Q) : 0 <= Qmax 0 q.
Proof. apply Q.le_max_l. Qed.

(** The overlap along one axis of a segment of length zero. *)
Lemma overlap_of_point (r1 r2 p w : Q) :
  w == 0 -> Qmax 0 (Qmin r2 (p + w) + - Qmax r1 p) == 0.
Proof.
  intros Hw. apply Qmax_zero_nonpos.
  pose proof (Q.le_min_r r2 (p + w)). pose proof (Q.le_max_r r1 p). lra.
Qed.



End ViewportProps.

(** ** Element collections: removal in place, connected edges, duplicates *)

Module CollectionProps.

Import Graph Connected GraphProps.
Local Open Scope string_scope.
Local Open Scope list_scope.

Lemma filter_idem {A : Type} (f : A -> bool) (l : list A) :
  filter f (filter f l) = filter f l.
Proof.
  induction l as [|a l IH]; simpl; [reflexivity|].
  destruct (f a) eqn:E; simpl; [rewrite E|]; now rewrite ?IH.
Qed.

(** X11.  Removing the same elements from the returned collection once more
    returns it unchanged. *)
Theorem removeElements_again (toRemove els : Elements) :
  returned (removeElements toRemove (returned (removeElements toRemove els)))
  = returned (removeElements toRemove els).
Proof. rewrite !removeElements_returned. apply filter_idem. Qed.

Section InPlace.

Variable toRemove : Elements.

Lemma forEachSplice_past_end (fuel k : nat) (arr : Elements) :
  (List.length arr <= k)%nat -> forEachSplice toRemove fuel k arr = arr.
Proof.
  revert k. induction fuel as [|fuel IH]; intros k Hk; simpl; [reflexivity|].
  assert (Hnone : nth_error arr k = None) by now apply nth_error_None.
  rewrite Hnone. apply IH. lia.
Qed.

(** The sweep from index [length pre] on an array [pre ++ suf] whose tail
    has no two neighbours to remove. *)
Lemma forEachSplice_no_neighbours (fuel : nat) (pre suf : Elements) :
  (List.length suf <= fuel)%nat ->
  noAdjacent (shouldRemove toRemove) suf = true ->
  forEachSplice toRemove fuel (List.length pre) (pre ++ suf)
  = pre ++ filter (fun e => negb (shouldRemove toRemove e)) suf.
Proof.
  revert pre suf. induction fuel as [|fuel IH]; intros pre suf Hlen Hadj.
  - destruct suf; [reflexivity | simpl in Hlen; lia].
  - destruct suf as [|e rest].
    + simpl filter. rewrite app_nil_r. apply forEachSplice_past_end. lia.
    + cbn [forEachSplice].
      rewrite nth_error_app2, Nat.sub_diag by lia. cbn [nth_error].
      destruct (shouldRemove toRemove e) eqn:He.
      * assert (Hsp : splice (pre ++ e :: rest) (List.length pre) 1 [] = pre ++ rest).
        { unfold splice. rewrite firstn_app, firstn_all, Nat.sub_diag.
          simpl firstn. rewrite app_nil_r. f_equal.
          rewrite skipn_app, skipn_all2 by lia.
          replace (List.length pre + 1 - List.length pre)%nat with 1%nat by lia.
          reflexivity. }
        rewrite Hsp. cbn [filter]. rewrite He. cbn [negb].
        destruct rest as [|e2 rest2].
        -- rewrite app_nil_r. simpl filter. rewrite app_nil_r.
           apply forEachSplice_past_end. lia.
        -- cbn [noAdjacent] in Hadj. rewrite He in Hadj.
           apply andb_true_iff in Hadj. destruct Hadj as [Hn Hadj].
           assert (He2 : shouldRemove toRemove e2 = false)
             by (destruct (shouldRemove toRemove e2); [discriminate | reflexivity]).
           cbn [filter]. rewrite He2. cbn [negb].
           replace (pre ++ e2 :: rest2) with ((pre ++ [e2]) ++ rest2)
             by now rewrite <- app_assoc.
           replace (S (List.length pre)) with (List.length (pre ++ [e2]))
             by (rewrite length_app; simpl; lia).
           rewrite IH.
           ++ now rewrite <- app_assoc.
           ++ simpl in Hlen. lia.
           ++ destruct rest2 as [|e3 rest3]; [reflexivity|].
              cbn [noAdjacent] in Hadj.
              apply andb_true_iff in Hadj. now destruct Hadj.
      * cbn [filter]. rewrite He. cbn [negb].
        replace (pre ++ e :: rest) with ((pre ++ [e]) ++ rest)
          by now rewrite <- app_assoc.
        replace (S (List.length pre)) with (List.length (pre ++ [e]))
          by (rewrite length_app; simpl; lia).
        rewrite IH.
        -- now rewrite <- app_assoc.
        -- simpl in Hlen. lia.
        -- destruct rest as [|e2 rest2]; [reflexivity|].
           cbn [noAdjacent] in Hadj.
           apply andb_true_iff in Hadj. now destruct Hadj.
Qed.

End InPlace.

(** X12.  When no two neighbours in the array are both to be removed, the
    argument array is left holding exactly what is returned.  With
    neighbours to remove it may keep some: of two nodes to remove in a row
    the second one stays in the argument array. *)
Theorem removeElements_in_place :
  (forall toRemove els,
      noAdjacent (shouldRemove toRemove) els = true ->
      stored (removeElements toRemove els) = returned (removeElements toRemove els))
  /\ (let els := [node "a"; node "b"; node "c"] in
      returned (removeElements [node "a"; node "b"] els) = [node "c"]
      /\ stored (removeElements [node "a"; node "b"] els) = [node "b"; node "c"]).
Proof.
  split; [|split; reflexivity].
  intros toRemove els Hadj.
  rewrite removeElements_returned. unfold removeElements. cbn [stored].
  apply (@forEachSplice_no_neighbours toRemove (List.length els) [] els);
    [lia | exact Hadj].
Qed.

Lemma removeElements_in_place_witness :
  let els := [node "a"; edge "ca" "c" "a"; node "b"; node "c"; edge "ab" "a" "b"] in
  noAdjacent (shouldRemove [node "c"]) els = true
  /\ stored (removeElements [node "c"] els) = [node "a"; node "b"; edge "ab" "a" "b"].
Proof.
  intros els. split; [reflexivity|].
  rewrite (proj1 removeElements_in_place [node "c"] els); reflexivity.
Defined.

(** *** Connected edges *)

Lemma getConnectedEdges_shouldRemove (nodes : Elements) (e : element) :
  isEdge e = true ->
  shouldRemove nodes e
  = includes (nodeIdsToRemove nodes) (get e Kid)
    || (includes (nodeIdsToRemove nodes) (get e Ksource)
        || includes (nodeIdsToRemove nodes) (get e Ktarget)).
Proof.
  intros He. unfold shouldRemove. rewrite He.
  destruct (includes _ (get e Kid)), (includes _ (get e Ktarget)),
    (includes _ (get e Ksource)); reflexivity.
Qed.

(** X13.  On a list of edges, removing nodes removes every edge connected
    to them: none of [getConnectedEdges nodes edges] survives
    [removeElements nodes], and an edge survives exactly when it is not
    among the connected edges and does not carry the id of one of the
    nodes. *)
Theorem removeElements_connected_edges (nodes edges : Elements) :
  (forall e, In e edges -> isEdge e = true) ->
  returned (removeElements nodes (getConnectedEdges nodes edges)) = []
  /\ forall e, In e edges ->
       (In e (returned (removeElements nodes edges)) <->
        ~ In e (getConnectedEdges nodes edges)
        /\ includes (nodeIdsToRemove nodes) (get e Kid) = false).
Proof.
  intros Hedges. split.
  - rewrite removeElements_returned.
    unfold getConnectedEdges.
    induction edges as [|e rest IH]; [reflexivity|].
    assert (He : isEdge e = true) by (apply Hedges; now left).
    assert (IH' : filter (fun e0 => negb (shouldRemove nodes e0))
                    (filter (fun edge => includes (map (fun node => get node Kid) nodes)
                                           (get edge Ksource)
                                         || includes (map (fun node => get node Kid) nodes)
                                              (get edge Ktarget)) rest) = [])
      by (apply IH; intros e' He'; apply Hedges; now right).
    cbn [filter].
    destruct (includes _ (get e Ksource) || includes _ (get e Ktarget)) eqn:Hc;
      [|exact IH'].
    cbn [filter]. rewrite (getConnectedEdges_shouldRemove nodes e He).
    unfold nodeIdsToRemove. rewrite Hc, orb_true_r. exact IH'.
  - intros e Hin. rewrite removeElements_returned, filter_In.
    unfold getConnectedEdges. rewrite filter_In.
    rewrite (getConnectedEdges_shouldRemove nodes e (Hedges e Hin)).
    unfold nodeIdsToRemove.
    destruct (includes _ (get e Kid)),
      (includes _ (get e Ksource) || includes _ (get e Ktarget)); simpl;
      intuition (try discriminate; try congruence).
Qed.

Lemma removeElements_connected_edges_witness :
  let nodes := [node "a"] in
  let edges := [edge "ab" "a" "b"; edge "bc" "b" "c"; edge "ca" "c" "a"] in
  (forall e, In e edges -> isEdge e = true)
  /\ getConnectedEdges nodes edges = [edge "ab" "a" "b"; edge "ca" "c" "a"]
  /\ returned (removeElements nodes (getConnectedEdges nodes edges)) = [].
Proof.
  intros nodes edges.
  assert (H : forall e, In e edges -> isEdge e = true)
    by (intros e [<-|[<-|[<-|[]]]]; reflexivity).
  split; [exact H|]. split; [reflexivity|].
  apply (proj1 (@removeElements_connected_edges nodes edges H)).
Defined.

(** *** Duplicate detection *)

Lemma handle_test_falsy (a b : value) :
  truthy b = false ->
  strictEq a b || (negb (truthy a) && negb (truthy b)) = negb (truthy a).
Proof.
  intros Hb. rewrite Hb. cbn [negb]. rewrite andb_true_r.
  destruct (strictEq a b) eqn:E; [|reflexivity].
  apply strictEq_eq in E. subst a. now rewrite Hb.
Qed.

(** X14.  For duplicate detection a handle that is absent, [undefined],
    [null] or the empty string is no handle: two connections with the same
    source and target and no handles are found in the same collections. *)
Theorem connectionExists_no_handles (e1 e2 : element) (els : Elements) :
  get e1 Ksource = get e2 Ksource -> get e1 Ktarget = get e2 Ktarget ->
  noHandles e1 = true -> noHandles e2 = true ->
  connectionExists e1 els = connectionExists e2 els.
Proof.
  intros Hs Ht H1 H2. unfold noHandles in *.
  apply andb_true_iff in H1, H2.
  destruct H1 as [H1s H1t], H2 as [H2s H2t].
  apply negb_true_iff in H1s, H1t, H2s, H2t.
  unfold connectionExists.
  induction els as [|el rest IH]; [reflexivity|].
  cbn [existsb]. rewrite IH, Hs, Ht.
  now rewrite !handle_test_falsy.
Qed.

Lemma connectionExists_no_handles_witness :
  let withNull :=
    {| id := None; source := Some (VString "a"); target := Some (VString "b");
       sourceHandle := Some VNull; targetHandle := Some (VString ""); extra := [] |} in
  noHandles withNull = true
  /\ connectionExists withNull [node "a"; node "b"; edge "e" "a" "b"] = true
  /\ addEdge withNull [node "a"; node "b"; edge "e" "a" "b"]
     = {| returned := [node "a"; node "b"; edge "e" "a" "b"];
          stored := [node "a"; node "b"; edge "e" "a" "b"];
          warnings := [] |}.
Proof.
  intros withNull. split; [reflexivity|]. split; [|reflexivity].
  rewrite (@connectionExists_no_handles withNull (connection "a" "b"));
    reflexivity.
Defined.

(** *** What [addEdge] and [updateEdge] leave behind *)

Lemma connectionExists_app (e : element) (l1 l2 : Elements) :
  connectionExists e (l1 ++ l2) = connectionExists e l1 || connectionExists e l2.
Proof. unfold connectionExists. apply existsb_app. Qed.

(** X15.  After [addEdge] with a connection that has a source and a target,
    the connection exists in the returned collection and in the argument
    array, the elements that were there come first and unchanged, and
    nothing is reported. *)
Theorem addEdge_establishes (c : element) (els : Elements) :
  truthy (get c Ksource) = true -> truthy (get c Ktarget) = true ->
  connectionExists (candidate c) (returned (addEdge c els)) = true
  /\ connectionExists (candidate c) (stored (addEdge c els)) = true
  /\ (exists added, returned (addEdge c els) = els ++ added
                    /\ forall e, In e added -> e = candidate c)
  /\ warnings (addEdge c els) = [].
Proof.
  intros Hs Ht.
  destruct (connectionExists (candidate c) els) eqn:Hex.
  - rewrite (addEdge_duplicate _ _ Hs Ht Hex). cbn [returned stored warnings].
    repeat split; trivial. exists []. split; [now rewrite app_nil_r | intros e []].
  - rewrite (addEdge_fresh _ _ Hs Ht Hex). cbn [returned stored warnings].
    pose proof (candidate_isEdge _ Hs Ht) as Hc.
    split; [apply (connectionExists_here _ els [candidate c] Hc)|].
    split; [apply (connectionExists_here _ els [] Hc)|].
    split; [|reflexivity].
    exists [candidate c; candidate c]. split; [reflexivity|].
    intros e [<-|[<-|[]]]; reflexivity.
Qed.

Lemma addEdge_establishes_witness :
  let c := connection "a" "b" in
  let els := [node "a"; node "b"] in
  connectionExists (candidate c) (returned (addEdge c els)) = true
  /\ connectionExists (candidate c) els = false.
Proof.
  intros c els. split; [|reflexivity].
  apply (@addEdge_establishes c els); reflexivity.
Defined.

Lemma splice_replace_nth (arr : Elements) (i : nat) (x y : element) :
  nth_error arr i = Some x ->
  exists before after,
    arr = before ++ x :: after /\ splice arr i 1 [y] = before ++ y :: after.
Proof.
  intros H. apply nth_error_split in H.
  destruct H as [before [after [Harr Hlen]]].
  exists before, after. split; [assumption|].
  unfold splice. subst arr i.
  rewrite firstn_app, firstn_all, Nat.sub_diag. simpl firstn.
  rewrite app_nil_r. f_equal. simpl app. f_equal.
  rewrite skipn_app, skipn_all2 by lia.
  replace (List.length before + 1 - List.length before)%nat with 1%nat by lia.
  reflexivity.
Qed.

(** X16.  When [updateEdge] finds the old edge, the argument array keeps its
    length; every element with another id than the old edge's stays, in the
    array and in the result; the only element of the result that can carry
    the old id is the replacement edge, which comes last; nothing is
    reported. *)
Theorem updateEdge_replaces (o c : element) (els : Elements) (found : element) :
  truthy (get c Ksource) = true -> truthy (get c Ktarget) = true ->
  find (fun e => isEdge e && strictEq (get e Kid) (get o Kid)) els = Some found ->
  List.length (stored (updateEdge o c els)) = List.length els
  /\ (forall e, In e els -> get e Kid <> get o Kid ->
                In e (stored (updateEdge o c els))
                /\ In e (returned (updateEdge o c els)))
  /\ (forall e, In e (returned (updateEdge o c els)) ->
                get e Kid = get o Kid -> e = retarget o c)
  /\ (exists kept, returned (updateEdge o c els) = kept ++ [retarget o c])
  /\ warnings (updateEdge o c els) = [].
Proof.
  intros Hs Ht Hfind.
  destruct (find_some _ _ Hfind) as [Hin Hp].
  apply andb_true_iff in Hp. destruct Hp as [_ Hid]. apply strictEq_eq in Hid.
  destruct (indexOf_In _ _ Hin) as [i Hi].
  destruct (@splice_replace_nth els i found (retarget o c) (indexOf_nth _ _ Hi))
    as [before [after [Hels Hsp]]].
  unfold updateEdge. rewrite Hs, Ht, Hfind, Hi. cbn [negb orb returned stored warnings].
  rewrite Hsp.
  split; [rewrite Hels, !length_app; reflexivity|].
  split; [|split; [|split; [eexists; reflexivity | reflexivity]]].
  - intros e He Hne.
    assert (Hother : In e before \/ In e after).
    { rewrite Hels in He. apply in_app_or in He.
      destruct He as [He|[He|He]]; [now left | | now right].
      subst e. contradiction. }
    assert (Hst : In e (before ++ retarget o c :: after)).
    { apply in_or_app. destruct Hother as [H|H]; [now left | right; now right]. }
    split; [exact Hst|].
    apply in_or_app. left. apply filter_In. split; [exact Hst|].
    apply negb_true_iff. destruct (strictEq _ _) eqn:E; [|reflexivity].
    apply strictEq_eq in E. contradiction.
  - intros e He Heq. apply in_app_or in He. destruct He as [He|[He|[]]].
    + apply filter_In in He. destruct He as [_ He].
      rewrite Heq, strictEq_refl in He. discriminate.
    + now symmetry.
Qed.

Lemma updateEdge_replaces_witness :
  let o := edge "e1" "a" "b" in
  let els := [node "a"; o; node "b"; node "c"] in
  find (fun e => isEdge e && strictEq (get e Kid) (get o Kid)) els = Some o
  /\ List.length (stored (updateEdge o (connection "a" "c") els)) = 4%nat
  /\ In (node "c") (returned (updateEdge o (connection "a" "c") els)).
Proof.
  intros o els. split; [reflexivity|].
  destruct (@updateEdge_replaces o (connection "a" "c") els o eq_refl eq_refl eq_refl)
    as [Hlen [Hkeep _]].
  split; [exact Hlen|].
  apply Hkeep; [right; right; right; now left | discriminate].
Defined.

End CollectionProps.

(** ** Parent chains: offsets, stacking index, selection *)

Module ChainProps.

Import Nested NestedChain NestedProps.
Local Open Scope Q_scope.


(** The index that comes out depends on the starting value through its
    index only. *)
Lemma calculateXYZPosition_index (node : GraphNode) :
  forall a b, pz a = pz b ->
              pz (calculateXYZPosition node a) = pz (calculateXYZPosition node b).
Proof.
  induction node as [pos cp | pos cp parent IH] using parent_chain_ind;
    intros a b Hab; simpl.
  - exact Hab.
  - apply IH. reflexivity.
Qed.

(** X18.  For a node whose parent has a parent, the index that comes out is
    the one that comes out for the parent: neither the declared index of
    the node nor the starting index is taken into account. *)
Theorem calculateXYZPosition_index_deep (node parent grandparent : GraphNode)
  (r r' : XYZPosition) :
  parentNode node = Some parent -> parentNode parent = Some grandparent ->
  pz (calculateXYZPosition node r) = pz (calculateXYZPosition parent r').
Proof.
  intros Hn Hp.
  destruct node as [pos cp pn]. simpl in Hn. subst pn.
  destruct parent as [ppos pcp ppn]. simpl in Hp. subst ppn.
  simpl. apply calculateXYZPosition_index. reflexivity.
Qed.

Lemma calculateXYZPosition_index_deep_witness :
  let g := root 0 0 0 in
  let p := child 0 0 0 g in
  let n := child 0 0 7 p in
  pz (resolveAbsolutePosition n) = pz (resolveAbsolutePosition p)
  /\ pz (resolveAbsolutePosition n) = 0.
Proof.
  intros g p n. split; [|reflexivity].
  apply (@calculateXYZPosition_index_deep n p g); reflexivity.
Defined.

(** X19.  For a node whose parent has no parent, the index that comes out
    is at least the declared index of the node and at least that of the
    parent, whatever the starting index. *)
Theorem calculateXYZPosition_index_above (node parent : GraphNode) (r : XYZPosition) :
  parentNode node = Some parent -> parentNode parent = None ->
  pz (computedPosition node) <= pz (calculateXYZPosition node r)
  /\ pz (computedPosition parent) <= pz (calculateXYZPosition node r).
Proof.
  intros Hn Hp.
  destruct node as [pos cp pn]. simpl in Hn. subst pn.
  destruct parent as [ppos pcp ppn]. simpl in Hp. subst ppn.
  simpl. unfold gtb.
  destruct (Qle_bool (pz pcp) (pz cp)) eqn:Hle; simpl.
  - apply Qle_bool_iff in Hle. split; lra.
  - assert (Hgt : pz cp < pz pcp).
    { apply Qnot_le_lt. intros Hc. apply Qle_bool_iff in Hc. congruence. }
    split; lra.
Qed.

Lemma calculateXYZPosition_index_above_witness :
  let p := root 10 10 3 in
  let n := child 5 5 1 p in
  pz (computedPosition p) <= pz (resolveAbsolutePosition n).
Proof.
  intros p n.
  apply (proj2 (@calculateXYZPosition_index_above n p
                  {| px := 5; py := 5; pz := 1 |} eq_refl eq_refl)).
Defined.

End ChainProps.

Module SelectionProps.

Import Selection.

Lemma selection_chain_ind (P : GraphNode -> Prop) :
  (forall sel, P (mkNode sel None)) ->
  (forall sel parent, P parent -> P (mkNode sel (Some parent))) ->
  forall node, P node.
Proof.
  intros Hroot Hchild. fix IH 1. intros [sel [parent|]].
  - apply Hchild, IH.
  - apply Hroot.
Qed.

(** X20.  [isParentSelected] holds exactly when some ancestor of the node is
    selected; the selection of the node itself plays no part. *)
Theorem isParentSelected_spec (node : GraphNode) :
  (isParentSelected node = true <->
   exists a, In a (ancestors node) /\ selected a = Some true)
  /\ forall sel, isParentSelected (mkNode sel (parentNode node))
                 = isParentSelected node.
Proof.
  split.
  - induction node as [sel | sel parent IH] using selection_chain_ind.
    + simpl. split; [discriminate | intros [a [[] _]]].
    + simpl. unfold isSelected.
      destruct (selected parent) as [[|]|] eqn:Hsel.
      * split; [|reflexivity]. intros _. exists parent. split; [now left | exact Hsel].
      * rewrite IH. split.
        -- intros [a [Ha Hs]]. exists a. split; [now right | exact Hs].
        -- intros [a [[<-|Ha] Hs]]; [congruence|]. now exists a.
      * rewrite IH. split.
        -- intros [a [Ha Hs]]. exists a. split; [now right | exact Hs].
        -- intros [a [[<-|Ha] Hs]]; [congruence|]. now exists a.
  - intros sel. destruct node as [sel0 [parent|]]; reflexivity.
Qed.

End SelectionProps.

(** ** Drag session: order of the calls and state after a release *)

Module DragOrderProps.

Import Drag DragTraces DragProps.
Local Open Scope float_scope.

Lemma run_app (l1 l2 : list input) (s : state) :
  run (l1 ++ l2) s
  = (fst (run l2 (fst (run l1 s))),
     snd (run l1 s) ++ snd (run l2 (fst (run l1 s)))).
Proof.
  revert s. induction l1 as [|i l1 IH]; intros s.
  - simpl. now destruct (run l2 s).
  - simpl app. simpl run. rewrite !andThen_eq, IH. cbn [fst snd].
    now rewrite app_assoc.
Qed.

(** X21.  In every state reached from the initial one an animation frame
    is requested only while the drag is started, and after a release the
    drag is not started and no animation frame is requested. *)
Theorem release_leaves_pending (inputs : list input) :
  (autoPanScheduled (fst (run inputs initial)) = true ->
   dragStarted (fst (run inputs initial)) = true)
  /\ forall E ev, pending (fst (run (inputs ++ [End_ E ev]) initial)).
Proof.
  assert (Hinv : framesOnlyWhileStarted (fst (run inputs initial)))
    by (apply run_frames; intros H; discriminate H).
  split; [exact Hinv|].
  intros E ev. rewrite run_app. cbn [fst]. simpl run.
  rewrite andThen_eq. cbn [fst skip]. simpl handle.
  set (s := fst (run inputs initial)) in *.
  destruct (dragStarted s) eqn:Hd.
  - unfold eventEnd, andThen, when, modify, emit. rewrite Hd. simpl.
    destruct (negb (Nat.eqb (List.length (dragItems s)) 0)); simpl; now split.
  - rewrite (eventEnd_pending E ev s Hd). cbn [fst]. split; [exact Hd|].
    destruct (autoPanScheduled s) eqn:Hf; [|reflexivity].
    rewrite (Hinv Hf) in Hd. discriminate.
Qed.

Lemma release_leaves_pending_witness :
  let E := store 5 in
  let inputs := [Start E (mouseAt 0 0); Move E (mouseAt 6 0); Move E (mouseAt 8 0)] in
  autoPanScheduled (fst (run inputs initial)) = true
  /\ dragStarted (fst (run inputs initial)) = true
  /\ pending (fst (run (inputs ++ [End_ E (mouseAt 8 0)]) initial)).
Proof.
  intros E inputs.
  destruct (release_leaves_pending inputs) as [Hinv Hend].
  split; [reflexivity|]. split; [apply Hinv; reflexivity | apply Hend].
Defined.

(** *** [onStop] comes after [onStart] *)

Lemma never_andThen (e : effect) (a b : action) :
  never e a -> never e b -> never e (a ;; b)%action.
Proof.
  intros Ha Hb s. rewrite andThen_eq. cbn [snd]. intros Hin.
  apply in_app_or in Hin. destruct Hin as [H|H]; [exact (Ha _ H) | exact (Hb _ H)].
Qed.

Lemma never_when (e : effect) (c : state -> bool) (a : action) :
  never e a -> never e (when c a).
Proof. intros Ha s. unfold when. destruct (c s); [apply Ha | intros []]. Qed.

Lemma never_modify (e : effect) (f : state -> state) : never e (modify f).
Proof. intros s []. Qed.

Lemma never_emit (e e' : effect) : e' <> e -> never e (emit e').
Proof. intros Hne s [H|[]]. contradiction. Qed.

Section NoStop.

Variable E : env.

Lemma updateNodes_never_stop (p : XYPosition) : never OnStop (updateNodes E p).
Proof.
  intros s. unfold updateNodes, andThen, modify, when, emit. simpl.
  destruct (existsb _ _); simpl; [|tauto].
  destruct (dragEvent s); simpl; intuition discriminate.
Qed.

Lemma autoPan_never_stop : never OnStop (autoPan E).
Proof.
  intros s. unfold autoPan.
  destruct (containerBounds s) as [bounds|]; [|intros []].
  destruct (calcAutoPan E (mousePosition s) bounds) as [xMovement yMovement].
  apply (@never_andThen OnStop); [|apply never_modify].
  apply never_when. intros s'.
  apply (@never_andThen OnStop); [apply never_emit; discriminate|].
  apply never_when. apply updateNodes_never_stop.
Qed.

(** The calls of [startDrag]: its store actions, then [onStart] when there
    are drag items. *)
Lemma startDrag_trace (ev : UseDragEvent) (s : state) :
  snd (startDrag E ev s)
  = startDragActions E
    ++ match getDragItems E (pointer ev) with [] => [] | _ :: _ => [OnStart] end.
Proof.
  unfold startDrag, startDragActions, andThen, when, modify, emit. simpl.
  destruct (negb (selectNodesOnDrag E) && negb (multiSelectionActive E)
            && match nodeSelected E with
               | Some selected => negb selected
               | None => false
               end);
    destruct (match nodeSelected E with Some _ => true | None => false end
              && selectable E && selectNodesOnDrag E);
    destruct (getDragItems E (pointer ev)); reflexivity.
Qed.

Lemma startDragActions_store (e : effect) :
  In e (startDragActions E) -> e = RemoveSelectedNodes \/ e = HandleNodeClick.
Proof.
  unfold startDragActions. intros H. apply in_app_or in H.
  destruct H as [H|H];
    [destruct (_ && _) in H | destruct (_ && _) in H];
    simpl in H; intuition.
Qed.

Lemma startDrag_never_stop (ev : UseDragEvent) : never OnStop (startDrag E ev).
Proof.
  intros s. rewrite startDrag_trace. intros H. apply in_app_or in H.
  destruct H as [H|H].
  - apply startDragActions_store in H. destruct H; discriminate.
  - destruct (getDragItems E (pointer ev)); simpl in H; intuition discriminate.
Qed.

Lemma eventStart_never_stop (ev : UseDragEvent) : never OnStop (eventStart E ev).
Proof.
  intros s. unfold eventStart. destruct (multiTouchMove ev); [intros []|].
  apply (@never_andThen OnStop); [apply never_when, startDrag_never_stop|].
  repeat (apply (@never_andThen OnStop); [apply never_modify|]).
  apply never_modify.
Qed.

Lemma eventDrag_never_stop (ev : UseDragEvent) : never OnStop (eventDrag E ev).
Proof.
  unfold eventDrag.
  apply never_andThen.
  - apply never_when, never_andThen; [apply never_modify | apply autoPan_never_stop].
  - apply never_andThen.
    + apply never_when, never_when, startDrag_never_stop.
    + apply never_when.
      do 2 (apply never_andThen; [apply never_modify|]).
      apply updateNodes_never_stop.
Qed.

Lemma frame_never_stop : never OnStop (frame E).
Proof.
  unfold frame. apply never_when, never_andThen;
    [apply never_modify | apply autoPan_never_stop].
Qed.

Lemma eventEnd_no_stop (ev : UseDragEvent) (s : state) :
  pending s \/ startedWithoutItems s -> ~ In OnStop (snd (eventEnd E ev s)).
Proof.
  intros [[H1 H2]|[H1 H2]].
  - rewrite (eventEnd_pending E ev s H1). cbn [snd].
    destruct (_ && hasOnClick E); simpl; intuition discriminate.
  - unfold eventEnd, andThen, when, modify, emit. rewrite H1. simpl.
    rewrite H2. simpl. tauto.
Qed.

End NoStop.

Lemma handle_no_stop (i : input) (s : state) :
  pending s \/ startedWithoutItems s -> ~ In OnStop (snd (handle i s)).
Proof.
  intros Hs. destruct i; simpl handle.
  - apply eventStart_never_stop.
  - apply eventDrag_never_stop.
  - now apply eventEnd_no_stop.
  - apply frame_never_stop.
Qed.

Lemma split_after (t rest before after : list effect) (e : effect) :
  ~ In e t -> t ++ rest = before ++ e :: after ->
  exists before', before = t ++ before' /\ rest = before' ++ e :: after.
Proof.
  intros Hni Heq. apply app_eq_app in Heq.
  destruct Heq as [l [[Ht Hr]|[Hb Hr]]].
  - destruct l as [|x l].
    + exists []. rewrite app_nil_r in Ht. subst t. simpl in Hr.
      split; [now rewrite app_nil_r | now symmetry].
    + simpl in Hr. injection Hr as Hx _. subst x t.
      exfalso. apply Hni. apply in_elt.
  - exists l. split; assumption.
Qed.

(** X22.  From a pending state, whatever the host delivers, every call of
    [onStop] comes after a call of [onStart]. *)
Theorem stop_after_start (inputs : list input) (s : state) :
  pending s ->
  forall before after,
    trace inputs s = before ++ OnStop :: after -> In OnStart before.
Proof.
  intros Hs.
  assert (Hgen : forall inputs s, pending s \/ startedWithoutItems s ->
            forall before after,
              trace inputs s = before ++ OnStop :: after -> In OnStart before).
  { clear. unfold trace. induction inputs as [|i rest IH]; intros s Hs before after Heq.
    - simpl in Heq. destruct before; discriminate.
    - simpl run in Heq. rewrite andThen_eq in Heq. cbn [snd] in Heq.
      destruct (@split_after _ _ _ _ _ (handle_no_stop i Hs) Heq)
        as [before' [-> Hrest]].
      apply in_or_app.
      destruct (handle_calm i Hs) as [[_ Hst]|[_ Hmode]]; [now left|].
      right. exact (IH _ Hmode _ _ Hrest). }
  intros before after. apply Hgen. now left.
Qed.

Lemma stop_after_start_witness :
  let E := store 5 in
  let inputs := [Start E (mouseAt 0 0); Move E (mouseAt 6 0); Move E (mouseAt 8 0);
                 End_ E (mouseAt 8 0)] in
  exists before after,
    trace inputs initial = before ++ OnStop :: after /\ In OnStart before.
Proof.
  intros E inputs.
  exists [HandleNodeClick; OnStart;
          UpdateNodePositions
            [{| itemId := "n1"; position := {| x := 8 - 6; y := 0 - 0 |};
                distance := {| x := 6; y := 0 |} |}] true true;
          OnDrag;
          UpdateNodePositions
            [{| itemId := "n1"; position := {| x := 8 - 6; y := 0 - 0 |};
                distance := {| x := 6; y := 0 |} |}] false false], [].
  assert (Heq : trace inputs initial
                = [HandleNodeClick; OnStart;
                   UpdateNodePositions
                     [{| itemId := "n1"; position := {| x := 8 - 6; y := 0 - 0 |};
                         distance := {| x := 6; y := 0 |} |}] true true;
                   OnDrag;
                   UpdateNodePositions
                     [{| itemId := "n1"; position := {| x := 8 - 6; y := 0 - 0 |};
                         distance := {| x := 6; y := 0 |} |}] false false] ++ OnStop :: [])
    by reflexivity.
  split; [exact Heq|].
  apply (@stop_after_start inputs initial (conj eq_refl eq_refl) _ _ Heq).
Defined.

(** *** Moves that change nothing, and a zero threshold *)

Lemma updateNodes_still (E : env) (p : XYPosition) (s : state) :
  existsb (moved E (x p) (y p)) (dragItems s) = false ->
  snd (updateNodes E p s) = []
  /\ dragging (fst (updateNodes E p s)) = dragging s
  /\ dragStarted (fst (updateNodes E p s)) = dragStarted s.
Proof.
  intros H. unfold updateNodes, andThen, modify, when, emit. simpl.
  rewrite H. simpl. auto.
Qed.

(** X23.  While the drag is started and auto-pan is already running (or
    switched off), a move that leaves every drag item where it is makes no
    call at all and does not touch the [dragging] flag. *)
Theorem eventDrag_without_change (E : env) (ev : UseDragEvent) (s : state) :
  dragStarted s = true ->
  negb (autoPanStarted s) && autoPanOnNodeDrag E = false ->
  (forall n, In n (dragItems s) ->
             moved E (ptX (pointer ev)) (ptY (pointer ev)) n = false) ->
  snd (eventDrag E ev s) = []
  /\ dragging (fst (eventDrag E ev s)) = dragging s
  /\ dragStarted (fst (eventDrag E ev s)) = true.
Proof.
  intros Hd Hpan Hstill. unfold eventDrag. rewrite andThen_eq.
  set (first := when _ (_ ;; autoPan E)%action).
  assert (Hfirst : first s = (s, [])).
  { subst first. unfold when. rewrite Hd, andb_true_r. now rewrite Hpan. }
  rewrite Hfirst. cbn [fst snd app]. rewrite andThen_eq.
  set (second := when (fun s0 => negb (dragStarted s0)) _).
  assert (Hsecond : second s = (s, [])).
  { subst second. unfold when. now rewrite Hd. }
  rewrite Hsecond. cbn [fst snd app].
  assert (Hquiet : existsb (moved E (ptX (pointer ev)) (ptY (pointer ev))) (dragItems s)
                   = false).
  { destruct (existsb _ _) eqn:Hex; [|reflexivity].
    apply existsb_exists in Hex. destruct Hex as [n [Hin Hm]].
    rewrite (Hstill n Hin) in Hm. discriminate. }
  unfold when.
  destruct (_ && dragStarted s); [|cbn [fst snd]; auto].
  rewrite !andThen_eq. cbn [modify fst snd app].
  match goal with
  | |- context [updateNodes E ?p ?s0] =>
      destruct (@updateNodes_still E p s0) as [H1 [H2 H3]]; [exact Hquiet|];
      rewrite H1, H2, H3
  end.
  auto.
Qed.

Lemma eventDrag_without_change_witness :
  let E := store 5 in
  let s := fst (run [Start E (mouseAt 0 0); Move E (mouseAt 6 0); Move E (mouseAt 8 0)]
                    initial) in
  dragStarted s = true
  /\ snd (eventDrag E (mouseAt 8 0) s) = [].
Proof.
  intros E s. split; [reflexivity|].
  apply (@eventDrag_without_change E (mouseAt 8 0) s).
  - reflexivity.
  - reflexivity.
  - intros n [<-|[]]. reflexivity.
Defined.

(** With snapping on a grid of spacing [0] the snapped coordinate is
    [0 * Math.round(x / 0)], which is [NaN] and differs from every
    position: each move is then a change. *)
Example zero_grid_spacing_moves :
  let E := store 5 in
  let E0 :=
    mkEnv (nodeDragThreshold E) true (0, 15) (autoPanOnNodeDrag E) (zoom E)
          (selectNodesOnDrag E) (multiSelectionActive E) (selectable E)
          (hasOnClick E) (nodeSelected E) (containerRect E) (getDragItems E)
          (calcNextPosition E) (calcAutoPan E) (panBy E) in
  let n := {| itemId := "n1"; position := {| x := 0; y := 0 |};
              distance := {| x := 4; y := 0 |} |} in
  is_nan (x (nextPosition E0 4 0 n)) = true /\ moved E0 4 0 n = true.
Proof. split; reflexivity. Qed.

(** X24.  With a threshold of zero the drag starts on pointer down: a
    pointer down followed at once by a release calls the store actions of
    [startDrag], [onStart], the final position update and [onStop], and
    never [onClick], when there are nodes to drag. *)
Theorem zero_threshold_starts_at_once (E E' : env) (ev0 ev1 : UseDragEvent)
  (s : state) :
  (nodeDragThreshold E =? 0) = true -> multiTouchMove ev0 = false ->
  getDragItems E (pointer ev0) <> [] ->
  trace [Start E ev0; End_ E' ev1] s
  = startDragActions E
    ++ [OnStart; UpdateNodePositions (getDragItems E (pointer ev0)) false false;
        OnStop].
Proof.
  intros Ht Hm Hitems. unfold trace. simpl run. rewrite !andThen_eq.
  cbn [fst snd skip]. rewrite app_nil_r. simpl handle.
  assert (Hstart :
    snd (eventStart E ev0 s) = snd (startDrag E ev0 s)
    /\ dragStarted (fst (eventStart E ev0 s)) = true
    /\ dragItems (fst (eventStart E ev0 s)) = getDragItems E (pointer ev0)).
  { unfold eventStart. rewrite Hm. unfold andThen, modify, when.
    rewrite Ht.
    destruct (startDrag_outcome E ev0 s) as [Hd [Hi _]].
    destruct (startDrag E ev0 s) as [s1 t1]. cbn [fst snd] in *.
    rewrite !app_nil_r. simpl. auto. }
  destruct Hstart as [Htr [Hd Hi]]. rewrite Htr, startDrag_trace.
  set (s1 := fst (eventStart E ev0 s)) in *.
  assert (Hend : snd (eventEnd E' ev1 s1)
                 = [UpdateNodePositions (getDragItems E (pointer ev0)) false false;
                    OnStop]).
  { unfold eventEnd, andThen, when, modify, emit. rewrite Hd. simpl.
    rewrite Hi. destruct (getDragItems E (pointer ev0)); [contradiction|].
    reflexivity. }
  rewrite Hend. destruct (getDragItems E (pointer ev0)); [contradiction|].
  now rewrite <- app_assoc.
Qed.

Lemma zero_threshold_starts_at_once_witness :
  let E := store 0 in
  match trace [Start E (mouseAt 3 4); End_ E (mouseAt 3 4)] initial with
  | [HandleNodeClick; OnStart; UpdateNodePositions _ false false; OnStop] => True
  | _ => False
  end.
Proof.
  intros E.
  rewrite (@zero_threshold_starts_at_once E E (mouseAt 3 4) (mouseAt 3 4) initial);
    [exact I | reflexivity | reflexivity | discriminate].
Defined.

End DragOrderProps.
